(** * Moon-phase service: a shallow embedding of [app.py] and its properties

    Part I embeds the program:
    - [F64]: Python's [float] (IEEE 754 binary64), on the Standard Library's
      executable specification [SpecFloat];
    - the phase classifier [get_phase_name_from_age] and the figure drawn by
      the disk renderer;
    - text ([str.strip], [str.split], [str.lower]), JSON values as Python
      objects and the exceptions the handlers can raise;
    - the account table, the [token_required] guard and the three endpoints,
      as state-passing functions over the table.

    Part II states and proves the properties C1 to C10. *)

From Stdlib Require Import ZArith Lia Bool String Ascii List.
From Stdlib Require Import Floats.SpecFloat.
From stdpp Require Import base tactics option list strings.

Import ListNotations.
Local Open Scope string_scope.
Local Open Scope list_scope.
Local Open Scope Z_scope.

(** * Part I: the program *)

(** ** Python floats *)

Module F64.

Definition prec : Z := 53.
Definition emax : Z := 1024.

Definition float : Type := spec_float.

(** A Python float always denotes a canonical binary64 datum. *)
Definition valid (x : float) : Prop := valid_binary prec emax x = true.

Definition mul : float -> float -> float := SFmul prec emax.
Definition div : float -> float -> float := SFdiv prec emax.
Definition add : float -> float -> float := SFadd prec emax.
Definition sub : float -> float -> float := SFsub prec emax.
Definition ltb : float -> float -> bool := SFltb.
Definition leb : float -> float -> bool := SFleb.
Definition pred : float -> float := SFpred prec emax.

(** [float(n)] for a Python [int]: the nearest binary64, exact when
    [|n| <= 2^53]. *)
Definition of_int (n : Z) : float := binary_normalize prec emax n 0 false.

(** A decimal literal [d * 10^-places] denotes the binary64 nearest to it.
    With [d] and [10^places] both exactly representable, that is the
    correctly rounded quotient of the two. *)
Definition lit (d : Z) (places : nat) : float :=
  div (of_int d) (of_int (10 ^ Z.of_nat places)).

(** [math.floor]: the integer part, rounded down; it raises on an
    infinity and on a NaN, which is [None] here. *)
Definition floor (x : float) : option Z :=
  match x with
  | S754_zero _ => Some 0
  | S754_finite s m e =>
      let n := if s then Z.neg m else Z.pos m in
      Some match e with
           | Z0 => n
           | Zpos p => n * 2 ^ Zpos p
           | Zneg p => n / 2 ^ Zpos p
           end
  | _ => None
  end.

End F64.

Declare Scope py_scope.
Delimit Scope py_scope with py.
Notation "x * y" := (F64.mul x y) : py_scope.
Notation "x / y" := (F64.div x y) : py_scope.
Notation "x + y" := (F64.add x y) : py_scope.
Notation "x - y" := (F64.sub x y) : py_scope.
Notation "x <? y" := (F64.ltb x y) : py_scope.
Notation "x <=? y" := (F64.leb x y) : py_scope.

Abbreviation int := F64.of_int (only parsing).

(** ** Phase classifier *)

Definition SYNODIC_MONTH : F64.float := F64.lit 29530588853 9.

Definition get_phase_name_from_age (age_days : F64.float) : string :=
  let fm := SYNODIC_MONTH in
  (if      age_days <? fm * int 1 / int 8 then "New Moon"
   else if age_days <? fm * int 2 / int 8 then "Waxing Crescent"
   else if age_days <? fm * int 3 / int 8 then "First Quarter"
   else if age_days <? fm * int 4 / int 8 then "Waxing Gibbous"
   else if age_days <? fm * int 5 / int 8 then "Full Moon"
   else if age_days <? fm * int 6 / int 8 then "Waning Gibbous"
   else if age_days <? fm * int 7 / int 8 then "Last Quarter"
   else                                        "Waning Crescent")%py.

(** ** Disk renderer: the figure that is drawn *)

(** [plt.Circle((x, y), r, color=c)] *)
Record Circle := mkCircle {
  center_x : F64.float;
  center_y : F64.float;
  radius : F64.float;
  color : string
}.

(** [offset = (1 - 2*illumination/100)*0.4] *)
Definition shadow_offset (illumination : F64.float) : F64.float :=
  ((int 1 - int 2 * illumination / int 100) * F64.lit 4 1)%py.

(** [shadow_x = 0.5 + offset if illumination <= 50 else 0.5 - offset] *)
Definition shadow_x (illumination : F64.float) : F64.float :=
  let offset := shadow_offset illumination in
  (if illumination <=? int 50 then F64.lit 5 1 + offset
   else F64.lit 5 1 - offset)%py.

(** The patches added to the axes, in drawing order. *)
Definition moon_patches (illumination : F64.float) : list Circle :=
  [ mkCircle (F64.lit 5 1) (F64.lit 5 1) (F64.lit 4 1) "white";
    mkCircle (shadow_x illumination) (F64.lit 5 1) (F64.lit 4 1) "black" ].

(** ** Text

    A Python [str] restricted to code points below 256, one [ascii] per
    code point (an HTTP header is exactly that). *)

Definition isspace (c : ascii) : bool :=
  let n := N_of_ascii c in
  ((9 <=? n) && (n <=? 13) || (28 <=? n) && (n <=? 31)
   || (n =? 32) || (n =? 133) || (n =? 160))%N.

Definition lower_char (c : ascii) : ascii :=
  let n := N_of_ascii c in
  if ((65 <=? n) && (n <=? 90)
      || (192 <=? n) && (n <=? 222) && negb (n =? 215))%N
  then ascii_of_N (n + 32) else c.

(** [s.lower()] *)
Fixpoint lower (s : string) : string :=
  match s with
  | EmptyString => EmptyString
  | String c s' => String (lower_char c) (lower s')
  end.

Fixpoint lstrip (s : string) : string :=
  match s with
  | EmptyString => EmptyString
  | String c s' => if isspace c then lstrip s' else s
  end.

Fixpoint rstrip (s : string) : string :=
  match s with
  | EmptyString => EmptyString
  | String c s' =>
      match rstrip s' with
      | EmptyString => if isspace c then EmptyString else String c EmptyString
      | r => String c r
      end
  end.

(** [s.strip()] *)
Definition strip (s : string) : string := rstrip (lstrip s).

(** [s.split()]: the maximal runs of non-whitespace characters; [word] is
    the run being read. *)
Fixpoint split_from (word s : string) : list string :=
  match s with
  | EmptyString => match word with EmptyString => [] | _ => [word] end
  | String c s' =>
      if isspace c then
        match word with
        | EmptyString => split_from EmptyString s'
        | _ => word :: split_from EmptyString s'
        end
      else split_from (word ++ String c EmptyString)%string s'
  end.

Definition split (s : string) : list string := split_from EmptyString s.

(** ** JSON values, exceptions, responses *)

#[warnings="-register-all"] Inductive value :=
| VNone
| VBool (b : bool)
| VInt (n : Z)
| VFloat (x : F64.float)
| VStr (s : string)
| VList (l : list value)
| VDict (d : list (string * value)).

(** Truth value of an object, as [not], [or] and [if] test it. *)
Definition truthy (v : value) : bool :=
  match v with
  | VNone => false
  | VBool b => b
  | VInt n => negb (n =? 0)
  | VFloat (S754_zero _) => false
  | VFloat _ => true
  | VStr s => negb (String.eqb s "")
  | VList l => match l with [] => false | _ => true end
  | VDict d => match d with [] => false | _ => true end
  end.

Inductive exn :=
| AttributeError
| KeyError
| ExpiredSignatureError
| InvalidTokenError
| HTTPException (code : Z).

Inductive result (A : Type) :=
| Ok (a : A)
| Raise (e : exn).

Arguments Ok {A} a.
Arguments Raise {A} e.

#[export] Instance result_ret : MRet result := fun A a => Ok a.

#[export] Instance result_bind : MBind result := fun A B f m =>
  match m with
  | Ok a => f a
  | Raise e => Raise e
  end.

Fixpoint dict_lookup (d : list (string * value)) (key : string) : option value :=
  match d with
  | [] => None
  | (k, v) :: d' => if String.eqb k key then Some v else dict_lookup d' key
  end.

(** [obj.get(key, default)]: only a dict has the method. *)
Definition get (obj : value) (key : string) (dflt : value) : result value :=
  match obj with
  | VDict d => Ok (default dflt (dict_lookup d key))
  | _ => Raise AttributeError
  end.

(** [obj.strip()]: only a [str] has the method. *)
Definition strip_method (obj : value) : result string :=
  match obj with
  | VStr s => Ok (strip s)
  | _ => Raise AttributeError
  end.

(** [x or {}] *)
Definition or_empty_dict (x : value) : value :=
  if truthy x then x else VDict [].

(** What [jsonify(...), code] gives back. *)
Record response := Response { status : Z; body : value }.

Definition message (code : Z) (msg : string) : response :=
  {| status := code; body := VDict [("message", VStr msg)] |}.

(** ** Configuration *)

Record Config := {
  SECRET_KEY : string;
  SQLALCHEMY_DATABASE_URI : string;
  SQLALCHEMY_TRACK_MODIFICATIONS : bool
}.

(** Where and how the program is run: the directory of [app.py] and the
    process environment. *)
Record Deployment := {
  file_dir : string;
  environ : string -> option string
}.

(** Whether the last character of a string is a slash. *)
Fixpoint ends_with_slash (s : string) : bool :=
  match s with
  | EmptyString => false
  | String c EmptyString => Ascii.eqb c "/"
  | String _ s' => ends_with_slash s'
  end.

(** [os.path.join(a, b)] for a relative [b], on POSIX. *)
Definition path_join (a b : string) : string :=
  if String.eqb a "" || ends_with_slash a then (a ++ b)%string
  else (a ++ "/" ++ b)%string.

(** [base_dir] is [os.path.abspath(os.path.dirname(__file__))]. *)
Definition db_path (base_dir : string) : string :=
  path_join base_dir "moonphase.db".

Definition app_config (d : Deployment) : Config :=
  let base_dir := file_dir d in
  {| SECRET_KEY := "dev-key-123";
     SQLALCHEMY_DATABASE_URI := ("sqlite:///" ++ db_path base_dir)%string;
     SQLALCHEMY_TRACK_MODIFICATIONS := false |}.

(** ** The account table *)

Record User := mkUser {
  id : Z;
  username : string;
  password : string;
  created_at : Z;
  last_login : option Z;
  calculations : Z
}.

(** The rows of the table, in insertion order. *)
Abbreviation DB := (list User).

Definition set_last_login (t : Z) (u : User) : User :=
  mkUser (id u) (username u) (password u) (created_at u) (Some t)
         (calculations u).

Definition set_calculations (n : Z) (u : User) : User :=
  mkUser (id u) (username u) (password u) (created_at u) (last_login u) n.

(** [User.query.filter_by(username=s).first()]: the position of the row and
    the object loaded from it. *)
Definition first_by_username (db : DB) (s : string) : option (nat * User) :=
  list_find (fun u => username u = s) db.

(** The key the table gives to the next row. *)
Definition next_id (db : DB) : Z := 1 + foldr Z.max 0 (id <$> db).

(** ** Collaborators outside the program *)

(** The payload of a token, a dict with the keys the program uses: each
    claim is there or not, the name a [str] and the expiry an instant. *)
Record Payload := {
  payload_username : option string;
  payload_exp : option Z
}.

(** [payload['username']] *)
Definition payload_getitem_username (p : Payload) : result string :=
  match payload_username p with
  | Some name => Ok name
  | None => Raise KeyError
  end.

(** The libraries the program calls: werkzeug's password hashing, PyJWT,
    ephem, matplotlib with base64, and the built-ins [round] and
    [datetime.isoformat].  A failure of a call is the exception it raises. *)
Record Library := {
  generate_password_hash : string -> string -> string;
  check_password_hash : string -> string -> bool;
  jwt_encode : Payload -> string -> string -> string;
  jwt_decode : string -> string -> list string -> Z -> result Payload;
  ephem_Date : value -> option F64.float;
  moon_phase : F64.float -> F64.float;
  previous_new_moon : F64.float -> F64.float;
  savefig_b64 : list Circle -> string;
  round2 : F64.float -> F64.float;
  isoformat : Z -> string
}.

(** What a request sees of the world around it: successive readings of the
    clock (microseconds) and the salt drawn for a new password hash. *)
Record Ambient := {
  clock : nat -> Z;
  salt : string
}.

(** [timedelta(hours=24)] in microseconds. *)
Definition hours_24 : Z := 24 * 3600 * 1000000.

Record Request := {
  authorization : option string;
  get_json : result value
}.

Definition Handler : Type :=
  Library -> Config -> Ambient -> Request -> DB -> result (response * DB).

(** [generate_password_hash(pwd)]: the password has to be a [str]. *)
Definition py_generate_password_hash (lib : Library) (pwd : value)
    (salt : string) : result string :=
  match pwd with
  | VStr p => Ok (generate_password_hash lib p salt)
  | _ => Raise AttributeError
  end.

(** [check_password_hash(pwhash, pwd)] *)
Definition py_check_password_hash (lib : Library) (pwhash : string)
    (pwd : value) : result bool :=
  match pwd with
  | VStr p => Ok (check_password_hash lib pwhash p)
  | _ => Raise AttributeError
  end.

(** ** The guard *)

Definition token_required (f : nat * User -> Handler) : Handler :=
  fun lib cfg amb req db =>
  let auth := default "" (authorization req) in
  let parts := split auth in
  if negb (length parts =? 2)%nat
     || negb (String.eqb (lower (nth 0 parts "")) "bearer")
  then Ok (message 401 "Invalid or missing Authorization header", db)
  else
    let token := nth 1 parts "" in
    match
      payload ← jwt_decode lib token (SECRET_KEY cfg) ["HS256"] (clock amb 0);
      name ← payload_getitem_username payload;
      match first_by_username db name with
      | None => Ok (message 401 "User not found", db)
      | Some user => f user lib cfg amb req db
      end
    with
    | Ok r => Ok r
    | Raise ExpiredSignatureError => Ok (message 401 "Token has expired", db)
    | Raise _ => Ok (message 401 "Invalid token", db)
    end.

(** ** The endpoints *)

Definition register : Handler :=
  fun lib cfg amb req db =>
  json ← get_json req;
  let data := or_empty_dict json in
  usern ← get data "username" (VStr "") ≫= strip_method;
  pwd ← get data "password" (VStr "");
  if negb (truthy (VStr usern)) || negb (truthy pwd) then
    Ok (message 400 "Missing username or password", db)
  else
    match first_by_username db usern with
    | Some _ => Ok (message 400 "Username already exists", db)
    | None =>
        hash ← py_generate_password_hash lib pwd (salt amb);
        let usr := mkUser (next_id db) usern hash (clock amb 0) None 0 in
        Ok (message 201 "Registration successful", (db ++ [usr]))
    end.

Definition login : Handler :=
  fun lib cfg amb req db =>
  json ← get_json req;
  let data := or_empty_dict json in
  usern ← get data "username" (VStr "") ≫= strip_method;
  pwd ← get data "password" (VStr "");
  if negb (truthy (VStr usern)) || negb (truthy pwd) then
    Ok (message 400 "Missing username or password", db)
  else
    match first_by_username db usern with
    | None => Ok (message 401 "Invalid credentials", db)
    | Some (i, usr) =>
        ok ← py_check_password_hash lib (password usr) pwd;
        if negb ok then Ok (message 401 "Invalid credentials", db)
        else
          let usr := set_last_login (clock amb 0) usr in
          let db := <[i := usr]> db in
          let token :=
            jwt_encode lib
              {| payload_username := Some (username usr);
                 payload_exp := Some (clock amb 1 + hours_24) |}
              (SECRET_KEY cfg) "HS256" in
          Ok ({| status := 200;
                 body := VDict
                   [("token", VStr token);
                    ("username", VStr (username usr));
                    ("calculations", VInt (calculations usr));
                    ("last_login", VStr (isoformat lib (clock amb 0)))] |},
              db)
    end.

Definition get_moon_phase (current_user : nat * User) : Handler :=
  fun lib cfg amb req db =>
  json ← get_json req;
  let data := or_empty_dict json in
  date_str ← get data "date" (VStr "");
  if negb (truthy date_str) then Ok (message 400 "Date is required", db)
  else
    match ephem_Date lib date_str with
    | None => Ok (message 400 "Invalid date format; use YYYY-MM-DD", db)
    | Some e_date =>
        let illumination := moon_phase lib e_date in
        let prev_new := previous_new_moon lib e_date in
        let age_days := (e_date - prev_new)%py in
        let img_b64 := savefig_b64 lib (moon_patches illumination) in
        let '(i, usr) := current_user in
        let usr := set_calculations (calculations usr + 1) usr in
        let db := <[i := usr]> db in
        Ok ({| status := 200;
               body := VDict
                 [("phase_name", VStr (get_phase_name_from_age age_days));
                  ("illumination", VFloat (round2 lib illumination));
                  ("moon_image", VStr img_b64);
                  ("calculations", VInt (calculations usr))] |},
            db)
    end.

(** ** The application *)

Inductive Route := Register | Login | GetMoonPhase.

Definition view (r : Route) : Handler :=
  match r with
  | Register => register
  | Login => login
  | GetMoonPhase => token_required get_moon_phase
  end.

(** An exception that leaves a view becomes an error page, and what the
    session has not committed is dropped. *)
Definition serve (lib : Library) (cfg : Config) (r : Route) (amb : Ambient)
    (req : Request) (db : DB) : response * DB :=
  match view r lib cfg amb req db with
  | Ok out => out
  | Raise (HTTPException code) => ({| status := code; body := VNone |}, db)
  | Raise _ => ({| status := 500; body := VNone |}, db)
  end.

Record Call := {
  call_route : Route;
  call_ambient : Ambient;
  call_request : Request
}.

(** A sequence of requests, served one after the other. *)
Definition run (lib : Library) (cfg : Config) (calls : list Call) (db : DB) : DB :=
  foldl (fun db c =>
           snd (serve lib cfg (call_route c) (call_ambient c) (call_request c) db))
        db calls.

(** ** A toy instance of the collaborators, to run the service on *)

Module Demo.

Definition hash (pwd salt : string) : string :=
  ("scrypt$" ++ salt ++ "$" ++ pwd)%string.

Definition lib : Library := {|
  generate_password_hash := hash;
  check_password_hash := fun pwhash pwd => String.eqb pwhash (hash pwd "NaCl");
  jwt_encode := fun payload key alg =>
    match payload_username payload with
    | Some name => ("jwt." ++ name)%string
    | None => "jwt"
    end;
  jwt_decode := fun token key algs now =>
    if String.eqb token "stale" then Raise ExpiredSignatureError
    else if String.prefix "jwt." token
         then Ok {| payload_username :=
                      Some (String.substring 4 (String.length token) token);
                    payload_exp := Some (now + hours_24) |}
         else Raise InvalidTokenError;
  ephem_Date := fun v =>
    match v with
    | VStr s => if String.eqb s "2024-01-11" then Some (int 45300) else None
    | _ => None
    end;
  moon_phase := fun _ => int 0;
  previous_new_moon := fun d => d;
  savefig_b64 := fun _ => "iVBORw0KGgo=";
  round2 := fun x => x;
  isoformat := fun _ => "2024-01-11T00:00:00+00:00"
|}.

Definition deployment : Deployment :=
  {| file_dir := "/srv/moon";
     environ := fun k => if String.eqb k "SECRET_KEY" then Some "s3cr3t" else None |}.

Definition cfg : Config := app_config deployment.

Definition amb : Ambient :=
  {| clock := fun n => 1704931200000000 + Z.of_nat n; salt := "NaCl" |}.

Definition credentials (u p : string) : Request :=
  {| authorization := None;
     get_json := Ok (VDict [("username", VStr u); ("password", VStr p)]) |}.

Definition phase_query (header : option string) (date : string) : Request :=
  {| authorization := header;
     get_json := Ok (VDict [("date", VStr date)]) |}.

Definition alice : User :=
  mkUser 1 "alice" (hash "pw1" "NaCl") 1704931200000000 None 0.

Definition session : list Call :=
  [ {| call_route := Register; call_ambient := amb;
       call_request := credentials " alice " "pw1" |};
    {| call_route := Login; call_ambient := amb;
       call_request := credentials "alice" "pw1" |};
    {| call_route := GetMoonPhase; call_ambient := amb;
       call_request := phase_query (Some "Bearer jwt.alice") "2024-01-11" |};
    {| call_route := GetMoonPhase; call_ambient := amb;
       call_request := phase_query (Some "bearer jwt.alice") "2024-01-11" |} ].

End Demo.

(** ** Vocabulary of the statements *)

(** The eight labels, in the order of the comparisons. *)
Definition phase_labels : list string :=
  [ "New Moon"; "Waxing Crescent"; "First Quarter"; "Waxing Gibbous";
    "Full Moon"; "Waning Gibbous"; "Last Quarter"; "Waning Crescent" ].

Definition phase_label (k : Z) : string := nth (Z.to_nat k) phase_labels "".

(** The bucket width and the boundaries as the specification writes them,
    [k * (29.530588853 / 8)], evaluated in float arithmetic. *)
Definition bucket_width : F64.float := (SYNODIC_MONTH / int 8)%py.

Definition boundary (k : Z) : F64.float := (int k * bucket_width)%py.

(** The offset as the specification writes it. *)
Definition spec_shadow_offset (illumination : F64.float) : F64.float :=
  ((int 1 - int 2 * illumination / int 100) * F64.lit 4 1)%py.

(** A string of whitespace only (the empty string included). *)
Fixpoint all_space (s : string) : bool :=
  match s with
  | EmptyString => true
  | String c s' => isspace c && all_space s'
  end.

(** [data.get(key, '')] is the string [s]: the field holds [s], or it is
    absent and [s] is empty. *)
Definition field_is (json : value) (key s : string) : Prop :=
  get (or_empty_dict json) key (VStr "") = Ok (VStr s).

Definition new_user (lib : Library) (amb : Ambient) (db : DB)
    (name pwd : string) : User :=
  mkUser (next_id db) name (generate_password_hash lib pwd (salt amb))
         (clock amb 0) None 0.

Definition login_success (lib : Library) (cfg : Config) (amb : Ambient)
    (i : nat) (usr : User) (db : DB) : response * DB :=
  let usr := set_last_login (clock amb 0) usr in
  ({| status := 200;
      body := VDict
        [("token",
          VStr (jwt_encode lib
                  {| payload_username := Some (username usr);
                     payload_exp := Some (clock amb 1 + hours_24) |}
                  (SECRET_KEY cfg) "HS256"));
         ("username", VStr (username usr));
         ("calculations", VInt (calculations usr));
         ("last_login", VStr (isoformat lib (clock amb 0)))] |},
   <[i := usr]> db).

(** The token of a well-formed header: exactly two whitespace-separated
    parts, the first of which is [bearer] in any letter case. *)
Definition bearer_token (header : option string) : option string :=
  match split (default "" header) with
  | [scheme; token] =>
      if String.eqb (lower scheme) "bearer" then Some token else None
  | _ => None
  end.

(** What the guard makes of the outcome of the code it protects. *)
Definition guarded (db : DB) (r : result (response * DB)) : result (response * DB) :=
  match r with
  | Ok out => Ok out
  | Raise ExpiredSignatureError => Ok (message 401 "Token has expired", db)
  | Raise _ => Ok (message 401 "Invalid token", db)
  end.

Definition guard_messages : list string :=
  [ "Invalid or missing Authorization header"; "Token has expired";
    "Invalid token"; "User not found" ].

Definition body_field (r : response) (key : string) : option value :=
  match body r with
  | VDict d => dict_lookup d key
  | _ => None
  end.

(** The token [/login] builds for a user. *)
Definition issued_token (lib : Library) (key : string) (amb : Ambient)
    (usr : User) : string :=
  jwt_encode lib
    {| payload_username := Some (username usr);
       payload_exp := Some (clock amb 1 + hours_24) |}
    key "HS256".

(** The signing secret is configuration: some two deployments sign with
    different secrets. *)
Definition secret_is_configuration : Prop :=
  exists d1 d2 : Deployment,
    SECRET_KEY (app_config d1) <> SECRET_KEY (app_config d2).

(** The sentence of the specification about issued tokens, as it stands. *)
Definition issued_tokens_claim : Prop :=
  (forall lib d amb req db resp db',
     login lib (app_config d) amb req db = Ok (resp, db') ->
     status resp = 200 ->
     exists usr,
       usr ∈ db /\
       body_field resp "token"
       = Some (VStr (issued_token lib (SECRET_KEY (app_config d)) amb usr)))
  /\ secret_is_configuration.

(** Whether the first character of a string is whitespace. *)
Definition starts_with_space (s : string) : bool :=
  match s with
  | EmptyString => false
  | String c _ => isspace c
  end.

(** Whether the last character of a string is whitespace. *)
Fixpoint ends_with_space (s : string) : bool :=
  match s with
  | EmptyString => false
  | String c s' =>
      match s' with
      | EmptyString => isspace c
      | _ => ends_with_space s'
      end
  end.


(** ** Auxiliary definitions of the float proofs *)

(** [x < b] for a positive finite [b], read off the representation. *)
Definition below (x : F64.float) (mb : positive) (eb : Z) : Prop :=
  match x with
  | S754_zero _ => True
  | S754_infinity s => s = true
  | S754_nan => False
  | S754_finite true _ _ => True
  | S754_finite false m e => e < eb \/ (e = eb /\ Z.pos m < Z.pos mb)
  end.

(** [b <= x] for a positive finite [b]. *)
Definition at_least (x : F64.float) (mb : positive) (eb : Z) : Prop :=
  match x with
  | S754_infinity s => s = false
  | S754_finite false m e => eb < e \/ (e = eb /\ Z.pos mb <= Z.pos m)
  | _ => False
  end.

(** The chain of comparisons, on the representation of the argument. *)
Definition bucket (x : F64.float) : Z :=
  match x with
  | S754_zero _ | S754_infinity true | S754_finite true _ _ => 0
  | S754_infinity false | S754_nan => 7
  | S754_finite false m e =>
      if (e <? -51)%Z then 0
      else if (e =? -51)%Z then (if (Z.pos m <? 8312121809650133)%Z then 0 else 1)
      else if (e =? -50)%Z then (if (Z.pos m <? 8312121809650133)%Z then 1 else 2)
      else if (e =? -49)%Z then
        (if (Z.pos m <? 6234091357237600)%Z then 2
         else if (Z.pos m <? 8312121809650133)%Z then 3 else 4)
      else if (e =? -48)%Z then
        (if (Z.pos m <? 5195076131031333)%Z then 4
         else if (Z.pos m <? 6234091357237600)%Z then 5
         else if (Z.pos m <? 7273106583443866)%Z then 6 else 7)
      else 7
  end.

(** The number of places by which [shr_fexp] shifts the mantissa [m] held
    at exponent [e]. *)
Definition shift_amount (m e : Z) : Z :=
  Z.max 0 (fexp F64.prec F64.emax (Zdigits2 m + e) - e).

Definition width_m : Z := 8312121809650133.

(** Exponent and integer quotient that [SFdiv] computes for
    [x / bucket_width], before rounding. *)
Definition quot_exp (mx : positive) (ex : Z) : Z :=
  Z.min (fexp F64.prec F64.emax (Zdigits2 (Z.pos mx) + ex - 2)) (ex + 51).

Definition quot_m (mx : positive) (ex : Z) : Z :=
  Z.pos mx * 2 ^ (ex + 51 - quot_exp mx ex) / width_m.

(** ** Vocabulary of the further properties *)

(** A string without any whitespace character. *)
Fixpoint no_space (s : string) : bool :=
  match s with
  | EmptyString => true
  | String c s' => negb (isspace c) && no_space s'
  end.

(** What one request can do to the table: nothing, append the row of a new
    account under a trimmed, non-empty, unused name, stamp the last login of
    one row, or add one to the counter of one row. *)
Inductive table_step (lib : Library) (amb : Ambient) (db : DB) : DB -> Prop :=
| step_same : table_step lib amb db db
| step_register name pwd :
    name <> "" -> strip name = name ->
    (forall r, r ∈ db -> username r <> name) ->
    table_step lib amb db (db ++ [new_user lib amb db name pwd])
| step_login i usr :
    db !! i = Some usr ->
    table_step lib amb db (<[i := set_last_login (clock amb 0) usr]> db)
| step_count i usr :
    db !! i = Some usr ->
    table_step lib amb db (<[i := set_calculations (calculations usr + 1) usr]> db).

(** The request passes the guard as the account in row [i]. *)
Definition authenticated (lib : Library) (cfg : Config) (amb : Ambient)
    (req : Request) (db : DB) (i : nat) (usr : User) : Prop :=
  exists token payload name,
    bearer_token (authorization req) = Some token /\
    jwt_decode lib token (SECRET_KEY cfg) ["HS256"] (clock amb 0)
    = Ok payload /\
    payload_username payload = Some name /\
    first_by_username db name = Some (i, usr).

(** Whether a call goes to [/register]. *)
Definition is_registration (c : Call) : bool :=
  match call_route c with
  | Register => true
  | _ => false
  end.

(** The number of calls of a sequence that go to [/register]. *)
Definition registrations (calls : list Call) : nat :=
  length (List.filter is_registration calls).

(** The names in the table are pairwise distinct, trimmed and non-empty. *)
Definition names_well_formed (db : DB) : Prop :=
  NoDup (username <$> db) /\
  Forall (fun r => username r <> "" /\ strip (username r) = username r) db.

(** The request with its Authorization header replaced. *)
Definition with_header (h : string) (req : Request) : Request :=
  {| authorization := Some h; get_json := get_json req |}.

(** [x] has sign [s] and magnitude at most [mb * 2^eb]: a zero, or a
    finite float on a grid at least as fine as that of the bound. *)
Definition upper_bounded (x : F64.float) (s : bool) (mb eb : Z) : Prop :=
  x = S754_zero s \/
  exists m e, x = S754_finite s m e /\ e <= eb /\ Z.pos m <= mb * 2 ^ (eb - e).

(** [x] has sign [s] and magnitude at least [ma * 2^ea]: an infinity, or a
    finite float on a grid at least as coarse as that of the bound. *)
Definition lower_bounded (x : F64.float) (s : bool) (ma ea : Z) : Prop :=
  x = S754_infinity s \/
  exists m e, x = S754_finite s m e /\ ea <= e /\ ma <= Z.pos m * 2 ^ (e - ea).

(** [ma * 2^ea <= m * 2^e], whichever grid is the finer. *)
Definition dyadic_le (ma ea m e : Z) : Prop :=
  (e <= ea /\ ma * 2 ^ (ea - e) <= m) \/ (ea < e /\ ma <= m * 2 ^ (e - ea)).

(** * Part II: properties *)

(** ** Literals *)

(** The floats that stand for the decimal literals of the program are the
    binary64 values nearest to them: each is within half a unit in the last
    place of its decimal, [0.5] exactly. *)
Lemma literals_are_nearest :
  (SYNODIC_MONTH = S754_finite false 8312121809650133 (-48) /\
   2 * Z.abs (8312121809650133 * 10 ^ 9 - 29530588853 * 2 ^ 48) <= 10 ^ 9) /\
  (F64.lit 4 1 = S754_finite false 7205759403792794 (-54) /\
   2 * Z.abs (7205759403792794 * 10 - 4 * 2 ^ 54) <= 10) /\
  (F64.lit 5 1 = S754_finite false 4503599627370496 (-53) /\
   4503599627370496 * 10 = 5 * 2 ^ 53).
Proof. vm_compute. repeat split; discriminate. Qed.

(** ** Order on floats *)

Lemma ltb_finite_below x mb eb :
  (x <? S754_finite false mb eb)%py = true <-> below x mb eb.
Proof.
  unfold F64.ltb, SFltb.
  destruct x as [s|s| |s m e]; simpl; try (destruct s); simpl;
    try (split; (done || tauto || discriminate)).
  destruct (Z.compare_spec e eb) as [->|Hlt|Hgt].
  - change (Pos.compare_cont Eq m mb) with (Z.pos m ?= Z.pos mb).
    destruct (Z.compare_spec (Z.pos m) (Z.pos mb)); split; intros; try done; lia.
  - split; [lia|done].
  - split; [done|lia].
Qed.

Lemma leb_finite_at_least x mb eb :
  (S754_finite false mb eb <=? x)%py = true <-> at_least x mb eb.
Proof.
  unfold F64.leb, SFleb.
  destruct x as [s|s| |s m e]; simpl; try (destruct s); simpl;
    try (split; (done || tauto || discriminate)).
  destruct (Z.compare_spec eb e) as [->|Hlt|Hgt].
  - change (Pos.compare_cont Eq mb m) with (Z.pos mb ?= Z.pos m).
    destruct (Z.compare_spec (Z.pos mb) (Z.pos m)); split; intros; try done; lia.
  - split; [lia|done].
  - split; [done|lia].
Qed.

Lemma ltb_finite_not_below x mb eb :
  (x <? S754_finite false mb eb)%py = false <-> ~ below x mb eb.
Proof. rewrite <- ltb_finite_below. destruct (x <? _)%py; split; congruence. Qed.

(** ** The chain of comparisons *)

(** The boundaries the code compares against, evaluated. *)
Lemma code_boundaries :
  ((SYNODIC_MONTH * int 1 / int 8)%py = S754_finite false 8312121809650133 (-51)) /\
  ((SYNODIC_MONTH * int 2 / int 8)%py = S754_finite false 8312121809650133 (-50)) /\
  ((SYNODIC_MONTH * int 3 / int 8)%py = S754_finite false 6234091357237600 (-49)) /\
  ((SYNODIC_MONTH * int 4 / int 8)%py = S754_finite false 8312121809650133 (-49)) /\
  ((SYNODIC_MONTH * int 5 / int 8)%py = S754_finite false 5195076131031333 (-48)) /\
  ((SYNODIC_MONTH * int 6 / int 8)%py = S754_finite false 6234091357237600 (-48)) /\
  ((SYNODIC_MONTH * int 7 / int 8)%py = S754_finite false 7273106583443866 (-48)).
Proof. vm_compute. repeat split. Qed.

Ltac decide_bucket :=
  subst; unfold bucket;
  repeat (match goal with
          | |- context [Z.ltb ?a ?b] => destruct (Z.ltb_spec a b)
          | |- context [Z.eqb ?a ?b] => destruct (Z.eqb_spec a b)
          end; try (exfalso; lia));
  reflexivity.

Ltac next_comparison :=
  match goal with
  | |- context [(?x <? S754_finite false ?m ?e)%py] =>
      let H := fresh "H" in
      destruct (x <? S754_finite false m e)%py eqn:H;
      [apply ltb_finite_below in H | apply ltb_finite_not_below in H];
      simpl in H; cbv iota
  end.

Lemma get_phase_name_bucket x :
  get_phase_name_from_age x = phase_label (bucket x).
Proof.
  unfold get_phase_name_from_age.
  destruct code_boundaries as (-> & -> & -> & -> & -> & -> & ->).
  destruct x as [[]|[]| |[] m e];
    [reflexivity | reflexivity | reflexivity | reflexivity | reflexivity
    | reflexivity | ].
  next_comparison; [decide_bucket|].
  next_comparison; [decide_bucket|].
  next_comparison; [decide_bucket|].
  next_comparison; [decide_bucket|].
  next_comparison; [decide_bucket|].
  next_comparison; [decide_bucket|].
  next_comparison; decide_bucket.
Qed.

(** ** Rounding: what [binary_round_aux] does to a non-negative mantissa *)

Lemma digits2_pos_bounds (p : positive) :
  2 ^ (Z.pos (digits2_pos p) - 1) <= Z.pos p < 2 ^ Z.pos (digits2_pos p).
Proof.
  induction p as [p IH|p IH|]; simpl digits2_pos.
  - rewrite Pos2Z.inj_succ, Z.pow_succ_r by lia.
    replace (Z.succ (Z.pos (digits2_pos p)) - 1) with
      (Z.succ (Z.pos (digits2_pos p) - 1)) by lia.
    rewrite Z.pow_succ_r by lia. lia.
  - rewrite Pos2Z.inj_succ, Z.pow_succ_r by lia.
    replace (Z.succ (Z.pos (digits2_pos p)) - 1) with
      (Z.succ (Z.pos (digits2_pos p) - 1)) by lia.
    rewrite Z.pow_succ_r by lia. lia.
  - cbn. lia.
Qed.

Lemma Zdigits2_nonneg q : 0 <= Zdigits2 q.
Proof. destruct q; simpl; lia. Qed.

Lemma Zdigits2_upper q : 0 <= q -> q < 2 ^ Zdigits2 q.
Proof.
  destruct q as [|p|p]; simpl; intros; try lia.
  apply digits2_pos_bounds.
Qed.

Lemma Zdigits2_lower q : 0 < q -> 2 ^ (Zdigits2 q - 1) <= q.
Proof.
  destruct q as [|p|p]; simpl; intros; try lia.
  apply digits2_pos_bounds.
Qed.

(** The number of digits, from a bracket by powers of two. *)
Lemma Zdigits2_bracket q d :
  0 < d -> 2 ^ (d - 1) <= q < 2 ^ d -> Zdigits2 q = d.
Proof.
  intros Hd [Hlo Hhi].
  assert (0 < q) by (pose proof (Z.pow_pos_nonneg 2 (d - 1)); lia).
  pose proof (Zdigits2_upper q ltac:(lia)) as Hu.
  pose proof (Zdigits2_lower q ltac:(lia)) as Hl.
  pose proof (Zdigits2_nonneg q) as Hn.
  assert (d - 1 < Zdigits2 q).
  { apply (Z.pow_lt_mono_r_iff 2); lia. }
  assert (Zdigits2 q - 1 < d).
  { destruct (Z.eq_dec (Zdigits2 q) 0) as [E|E]; [lia|].
    apply (Z.pow_lt_mono_r_iff 2); lia. }
  lia.
Qed.

Lemma shr_1_m mrs : 0 <= shr_m mrs -> shr_m (shr_1 mrs) = shr_m mrs / 2.
Proof.
  destruct mrs as [m r s]; simpl.
  destruct m as [|[p|p|]|p]; simpl; intros; try lia; try reflexivity.
  - rewrite Pos2Z.inj_xI. apply (Z.div_unique _ _ _ 1); lia.
  - rewrite Pos2Z.inj_xO. apply (Z.div_unique _ _ _ 0); lia.
Qed.

Lemma pow2_xI p : 2 ^ Z.pos p~1 = 2 * (2 ^ Z.pos p * 2 ^ Z.pos p).
Proof.
  rewrite (Pos2Z.inj_xI p).
  replace (2 * Z.pos p + 1) with (1 + Z.pos p + Z.pos p) by lia.
  rewrite !Z.pow_add_r by lia. change (2 ^ 1) with 2. ring.
Qed.

Lemma pow2_xO p : 2 ^ Z.pos p~0 = 2 ^ Z.pos p * 2 ^ Z.pos p.
Proof.
  rewrite (Pos2Z.inj_xO p).
  replace (2 * Z.pos p) with (Z.pos p + Z.pos p) by lia.
  rewrite Z.pow_add_r by lia. reflexivity.
Qed.

Lemma iter_shr_1_m p : forall mrs,
  0 <= shr_m mrs ->
  shr_m (SpecFloat.iter_pos shr_1 p mrs) = shr_m mrs / 2 ^ Z.pos p.
Proof.
  assert (Hnn : forall mrs, 0 <= shr_m mrs -> 0 <= shr_m (shr_1 mrs)).
  { intros mrs H. rewrite shr_1_m by done. apply Z.div_pos; lia. }
  induction p as [p IH|p IH|]; intros mrs Hm; simpl SpecFloat.iter_pos.
  - assert (0 <= shr_m (SpecFloat.iter_pos shr_1 p (shr_1 mrs))).
    { rewrite IH by auto. apply Z.div_pos; [auto|lia]. }
    rewrite IH, IH, shr_1_m by auto.
    rewrite pow2_xI, !Z.div_div by lia. reflexivity.
  - assert (0 <= shr_m (SpecFloat.iter_pos shr_1 p mrs)).
    { rewrite IH by auto. apply Z.div_pos; [auto|lia]. }
    rewrite IH, IH by auto.
    rewrite pow2_xO, !Z.div_div by lia. reflexivity.
  - apply shr_1_m; auto.
Qed.

Lemma shr_fexp_spec m e l :
  0 <= m ->
  let '(mrs, e1) := shr_fexp F64.prec F64.emax m e l in
  shr_m mrs = m / 2 ^ shift_amount m e /\ e1 = e + shift_amount m e.
Proof.
  intros Hm. unfold shr_fexp, shr, shift_amount.
  assert (Hrec : shr_m (shr_record_of_loc m l) = m).
  { destruct l as [|[]]; reflexivity. }
  destruct (fexp F64.prec F64.emax (Zdigits2 m + e) - e) as [|p|p] eqn:E.
  - rewrite Hrec. simpl. rewrite Z.div_1_r. lia.
  - rewrite iter_shr_1_m, Hrec by lia.
    rewrite Z.max_r by lia. split; reflexivity.
  - rewrite Hrec. rewrite Z.max_l by lia. simpl. rewrite Z.div_1_r. lia.
Qed.

Lemma round_nearest_even_bounds m l :
  m <= round_nearest_even m l <= m + 1.
Proof.
  destruct l as [|[]]; simpl; try lia.
  destruct (Z.even m); lia.
Qed.

Lemma shifted_lt_pow_prec m e :
  0 <= m -> m / 2 ^ shift_amount m e < 2 ^ F64.prec.
Proof.
  intros Hm. unfold shift_amount.
  pose proof (Zdigits2_upper m Hm) as Hu.
  pose proof (Zdigits2_nonneg m) as Hd.
  set (d := Zdigits2 m) in *.
  set (n := Z.max 0 _).
  assert (Hn : d - F64.prec <= n /\ 0 <= n).
  { subst n. unfold fexp, F64.prec. lia. }
  apply Z.div_lt_upper_bound; [apply Z.pow_pos_nonneg; lia|].
  rewrite <- Z.pow_add_r by (unfold F64.prec; lia).
  eapply Z.lt_le_trans; [exact Hu|].
  apply Z.pow_le_mono_r; lia.
Qed.

Lemma floor_finite_pos m e :
  e <= 0 -> F64.floor (S754_finite false m e) = Some (Z.pos m / 2 ^ (- e)).
Proof.
  destruct e as [|p|p]; intros; try lia; simpl F64.floor.
  - now rewrite Z.div_1_r.
  - reflexivity.
Qed.

Lemma Zdigits2_le_of_le_pow m d :
  0 <= d -> 0 <= m <= 2 ^ d -> Zdigits2 m <= d + 1.
Proof.
  intros Hd [H0 Hm].
  destruct (Z.eq_dec m 0) as [->|Hne]; [simpl; lia|].
  pose proof (Zdigits2_lower m ltac:(lia)) as Hl.
  pose proof (Zdigits2_nonneg m).
  destruct (Z.eq_dec (Zdigits2 m) 0); [lia|].
  assert (Zdigits2 m - 1 <= d); [|lia].
  apply (Z.pow_le_mono_r_iff 2); lia.
Qed.

(** Rounding a non-negative mantissa [q] at an exponent whose unit is at
    most one half: the floor of the result is the floor of a mantissa that
    is the shifted [q] or its successor. *)
Lemma binary_round_aux_floor q e l :
  0 <= q ->
  e + shift_amount q e < 0 ->
  exists m1,
    q / 2 ^ shift_amount q e <= m1 <= q / 2 ^ shift_amount q e + 1 /\
    F64.floor (binary_round_aux F64.prec F64.emax false q e l)
    = Some (m1 / 2 ^ (- (e + shift_amount q e))).
Proof.
  intros Hq He. unfold binary_round_aux.
  pose proof (shr_fexp_spec q e l Hq) as H1.
  pose proof (shifted_lt_pow_prec q e Hq) as Hlt.
  destruct (shr_fexp F64.prec F64.emax q e l) as [mrs1 e1].
  destruct H1 as [Hm1 He1].
  assert (Hs : 0 <= shr_m mrs1).
  { rewrite Hm1. apply Z.div_pos; [lia|].
    apply Z.pow_pos_nonneg; unfold shift_amount; lia. }
  rewrite <- Hm1 in *. rewrite <- He1 in *. clear He1 Hm1.
  pose proof (round_nearest_even_bounds (shr_m mrs1) (loc_of_shr_record mrs1)) as Hr.
  set (m1 := round_nearest_even (shr_m mrs1) (loc_of_shr_record mrs1)) in *.
  pose proof (shr_fexp_spec m1 e1 loc_Exact ltac:(lia)) as H2.
  destruct (shr_fexp F64.prec F64.emax m1 e1 loc_Exact) as [mrs2 e2].
  destruct H2 as [Hm2 He2].
  exists m1. split; [lia|].
  assert (Hd : Zdigits2 m1 <= 54).
  { apply (Zdigits2_le_of_le_pow m1 53); [lia|]. unfold F64.prec in Hlt. lia. }
  assert (Hn2 : 0 <= shift_amount m1 e1 <= - e1).
  { unfold shift_amount, fexp, emin, F64.prec, F64.emax. lia. }
  set (n2 := shift_amount m1 e1) in *.
  assert (Hpow : 2 ^ (- e1) = 2 ^ n2 * 2 ^ (- e2)).
  { rewrite <- Z.pow_add_r by lia. f_equal. lia. }
  assert (0 < 2 ^ n2) by (apply Z.pow_pos_nonneg; lia).
  assert (0 < 2 ^ (- e2)) by (apply Z.pow_pos_nonneg; lia).
  destruct (shr_m mrs2) as [|m|m] eqn:E.
  - simpl. f_equal. symmetry. rewrite Hpow, <- Z.div_div by lia.
    rewrite <- Hm2. apply Z.div_0_l. lia.
  - replace (e2 <=? F64.emax - F64.prec) with true
      by (symmetry; apply Z.leb_le; unfold F64.emax, F64.prec; lia).
    rewrite floor_finite_pos by lia.
    rewrite Hm2, Z.div_div, <- Hpow by lia. reflexivity.
  - exfalso. assert (0 <= m1 / 2 ^ n2) by (apply Z.div_pos; lia). lia.
Qed.

(** ** Dividing by the bucket width *)

Lemma bucket_width_eq :
  bucket_width = S754_finite false 8312121809650133 (-51).
Proof. vm_compute. reflexivity. Qed.

Lemma div_width_unfold mx ex :
  exists l,
    (S754_finite false mx ex / bucket_width)%py
    = binary_round_aux F64.prec F64.emax false (quot_m mx ex) (quot_exp mx ex) l.
Proof.
  rewrite bucket_width_eq. unfold F64.div, SFdiv, SFdiv_core_binary.
  change (Zdigits2 (Z.pos 8312121809650133)) with 53.
  replace (Zdigits2 (Z.pos mx) + ex - (53 + -51))
    with (Zdigits2 (Z.pos mx) + ex - 2) by lia.
  replace (ex - -51) with (ex + 51) by lia.
  fold (quot_exp mx ex). unfold quot_m.
  assert (Hs : 0 <= ex + 51 - quot_exp mx ex) by (unfold quot_exp; lia).
  set (s := ex + 51 - quot_exp mx ex) in *. clearbody s.
  assert (Hm : match s with
               | 0 => Z.pos mx
               | Z.pos _ => Z.shiftl (Z.pos mx) s
               | Z.neg _ => 0
               end = Z.pos mx * 2 ^ s).
  { destruct s as [|p|p]; try lia.
    rewrite Z.shiftl_mul_pow2 by lia. reflexivity. }
  rewrite Hm. unfold Z.div.
  destruct (Z.div_eucl (Z.pos mx * 2 ^ s) width_m) as [q r] eqn:E.
  unfold width_m in E. rewrite E. simpl xorb. eexists. reflexivity.
Qed.

Lemma quot_exp_normal mx ex :
  -1000 <= ex -> Zdigits2 (Z.pos mx) = 53 -> quot_exp mx ex = ex - 2.
Proof.
  intros He Hd. unfold quot_exp. rewrite Hd.
  unfold fexp, emin, F64.prec, F64.emax. lia.
Qed.

Ltac digits_bracket d :=
  apply (Zdigits2_bracket _ d);
  [lia | let v := eval compute in (d - 1) in change (d - 1) with v; lia].

(** For [x] in [[1, 32)] the quotient mantissa has 53 or 54 digits, so the
    rounding shifts by at most one place. *)
Lemma floor_div_normal mx ex :
  -52 <= ex <= -48 ->
  2 ^ 52 <= Z.pos mx < 2 ^ 53 ->
  let q := Z.pos mx * 2 ^ 53 / width_m in
  exists m1,
    (q < 2 ^ 53 /\ q <= m1 <= q + 1 /\
     F64.floor (S754_finite false mx ex / bucket_width)%py
     = Some (m1 / 2 ^ (2 - ex)))
    \/
    (2 ^ 53 <= q /\ q / 2 <= m1 <= q / 2 + 1 /\
     F64.floor (S754_finite false mx ex / bucket_width)%py
     = Some (m1 / 2 ^ (1 - ex))).
Proof.
  intros He Hm. cbv zeta.
  remember (Z.pos mx * 2 ^ 53 / width_m) as q eqn:Eq.
  destruct (div_width_unfold mx ex) as [l ->].
  assert (Hd : Zdigits2 (Z.pos mx) = 53) by digits_bracket 53.
  assert (Hq : quot_m mx ex = q).
  { unfold quot_m. rewrite quot_exp_normal by lia.
    replace (ex + 51 - (ex - 2)) with 53 by lia. now subst q. }
  unfold width_m in Eq.
  rewrite Hq, quot_exp_normal by lia.
  assert (Hqb : 2 ^ 52 <= q < 2 ^ 54) by (Z.div_mod_to_equations; lia).
  destruct (Z.lt_ge_cases q (2 ^ 53)) as [Hlt|Hge].
  - assert (Hdq : Zdigits2 q = 53) by digits_bracket 53.
    assert (Hn : shift_amount q (ex - 2) = 0).
    { unfold shift_amount. rewrite Hdq.
      unfold fexp, emin, F64.prec, F64.emax. lia. }
    destruct (binary_round_aux_floor q (ex - 2) l) as (m1 & Hm1 & Hf);
      [lia | lia |].
    rewrite Hn, Z.div_1_r in Hm1. rewrite Hn in Hf.
    exists m1. left. repeat split; try lia.
    rewrite Hf. do 3 f_equal. lia.
  - assert (Hdq : Zdigits2 q = 54) by digits_bracket 54.
    assert (Hn : shift_amount q (ex - 2) = 1).
    { unfold shift_amount. rewrite Hdq.
      unfold fexp, emin, F64.prec, F64.emax. lia. }
    destruct (binary_round_aux_floor q (ex - 2) l) as (m1 & Hm1 & Hf);
      [lia | lia |].
    rewrite Hn in Hm1, Hf. change (2 ^ 1) with 2 in Hm1.
    exists m1. right. repeat split; try lia.
    rewrite Hf. do 3 f_equal. lia.
Qed.

Lemma Zdigits2_le_of_lt_pow q k :
  0 <= k -> 0 <= q < 2 ^ k -> Zdigits2 q <= k.
Proof.
  intros Hk [H0 Hq].
  destruct (Z.eq_dec q 0) as [->|Hne]; [simpl; lia|].
  pose proof (Zdigits2_lower q ltac:(lia)) as Hl.
  pose proof (Zdigits2_nonneg q).
  destruct (Z.eq_dec (Zdigits2 q) 0); [lia|].
  assert (Zdigits2 q - 1 < k); [|lia].
  apply (Z.pow_lt_mono_r_iff 2); lia.
Qed.

(** Below one, the quotient by the bucket width rounds to something below
    one as well. *)
Lemma floor_div_small mx ex :
  -1074 <= ex <= -53 -> Zdigits2 (Z.pos mx) <= 53 ->
  F64.floor (S754_finite false mx ex / bucket_width)%py = Some 0.
Proof.
  intros He Hd.
  destruct (div_width_unfold mx ex) as [l ->].
  assert (Hmx : Z.pos mx < 2 ^ 53).
  { eapply Z.lt_le_trans; [apply Zdigits2_upper; lia|].
    apply Z.pow_le_mono_r; lia. }
  pose proof (Zdigits2_nonneg (Z.pos mx)) as Hd0.
  unfold quot_m.
  assert (He' : quot_exp mx ex <= -55 /\ quot_exp mx ex <= ex + 51
                /\ -1074 <= quot_exp mx ex).
  { unfold quot_exp, fexp, emin, F64.prec, F64.emax. lia. }
  set (e' := quot_exp mx ex) in *. clearbody e'.
  set (s := ex + 51 - e').
  assert (Hs : 0 <= s) by (unfold s; lia).
  assert (Hps : 0 < 2 ^ s) by (apply Z.pow_pos_nonneg; lia).
  set (q := Z.pos mx * 2 ^ s / width_m).
  assert (Hq0 : 0 <= q).
  { apply Z.div_pos; [|unfold width_m]; lia. }
  assert (Hq : q < 2 ^ (s + 1)).
  { apply Z.div_lt_upper_bound; [unfold width_m; lia|].
    rewrite Z.pow_add_r by lia. change (2 ^ 1) with 2.
    unfold width_m. nia. }
  assert (Hdq : Zdigits2 q <= s + 1) by (apply Zdigits2_le_of_lt_pow; lia).
  pose proof (Zdigits2_nonneg q) as Hdq0.
  assert (Hn : 0 <= shift_amount q e' <= s + 1 /\ e' + shift_amount q e' <= -54).
  { unfold shift_amount, fexp, emin, F64.prec, F64.emax. unfold s in *. lia. }
  destruct (binary_round_aux_floor q e' l) as (m1 & Hm1 & ->); [lia|lia|].
  set (n := shift_amount q e') in *. clearbody n.
  assert (Hpn : 0 < 2 ^ n) by (apply Z.pow_pos_nonneg; lia).
  assert (Hqn : 0 <= q / 2 ^ n < 2 ^ (s + 1 - n)).
  { split; [apply Z.div_pos; lia|].
    apply Z.div_lt_upper_bound; [lia|].
    rewrite <- Z.pow_add_r by lia.
    replace (n + (s + 1 - n)) with (s + 1) by lia. exact Hq. }
  f_equal. apply Z.div_small. split; [lia|].
  apply Z.le_lt_trans with (2 ^ (s + 1 - n)); [lia|].
  apply Z.pow_lt_mono_r; unfold s; lia.
Qed.

(** ** The classifier agrees with [floor (age / width)] *)

Lemma SYNODIC_MONTH_eq :
  SYNODIC_MONTH = S754_finite false 8312121809650133 (-48).
Proof. vm_compute. reflexivity. Qed.

Lemma valid_finite_cases s m e :
  F64.valid (S754_finite s m e) ->
  -1074 <= e <= 971 /\ Zdigits2 (Z.pos m) <= 53 /\
  (e <> -1074 -> Zdigits2 (Z.pos m) = 53).
Proof.
  unfold F64.valid, valid_binary, bounded, canonical_mantissa.
  intros H. apply andb_prop in H as [H1 H2].
  apply Z.eqb_eq in H1. apply Z.leb_le in H2.
  unfold fexp, emin, F64.prec, F64.emax in *. simpl Zdigits2. lia.
Qed.

Ltac special_point mx c :=
  let E := fresh "E" in
  destruct (Z.eq_dec (Z.pos mx) c) as [E|E];
  [injection E as ->; vm_compute; reflexivity|].

Ltac eval_pow2 :=
  repeat match goal with
  | |- context [2 ^ (?a - ?b)] =>
      let v := eval vm_compute in (2 ^ (a - b)) in
      change (2 ^ (a - b)) with v
  end.

Ltac bucket_by_bounds mx ex :=
  let m1 := fresh "m1" in
  let Hq := fresh "Hq" in
  let Hm1 := fresh "Hm1" in
  destruct (floor_div_normal mx ex) as [m1 [(Hq & Hm1 & ->)|(Hq & Hm1 & ->)]];
  [lia | lia | |];
  f_equal; unfold width_m in *; unfold bucket; eval_pow2;
  repeat (match goal with
          | |- context [Z.ltb ?a ?b] => destruct (Z.ltb_spec a b)
          | |- context [Z.eqb ?a ?b] => destruct (Z.eqb_spec a b)
          end; try (exfalso; lia));
  Z.div_mod_to_equations; lia.

Lemma floor_div_bucket x :
  F64.valid x ->
  (int 0 <=? x)%py = true ->
  (x <? SYNODIC_MONTH)%py = true ->
  F64.floor (x / bucket_width)%py = Some (bucket x).
Proof.
  intros Hv H0 Hfm.
  rewrite SYNODIC_MONTH_eq in Hfm. apply ltb_finite_below in Hfm.
  destruct x as [s|s| |s mx ex]; try discriminate H0.
  - rewrite bucket_width_eq. reflexivity.
  - destruct s; [discriminate H0 | discriminate Hfm].
  - destruct s; [discriminate H0|]. simpl in Hfm.
    apply valid_finite_cases in Hv as (He & Hd & Hn).
    destruct (Z.le_gt_cases ex (-53)) as [Hs|Hs].
    { rewrite floor_div_small by lia.
      unfold bucket. destruct (Z.ltb_spec ex (-51)); [reflexivity|lia]. }
    specialize (Hn ltac:(lia)).
    assert (Hm : 2 ^ 52 <= Z.pos mx < 2 ^ 53).
    { pose proof (Zdigits2_lower (Z.pos mx) ltac:(lia)) as Hl.
      pose proof (Zdigits2_upper (Z.pos mx) ltac:(lia)) as Hu.
      rewrite Hn in Hl, Hu. exact (conj Hl Hu). }
    assert (Hex : ex = -52 \/ ex = -51 \/ ex = -50 \/ ex = -49 \/ ex = -48)
      by lia.
    clear He Hd Hn Hs.
    destruct Hex as [->|[->|[->|[->| ->]]]].
    + bucket_by_bounds mx (-52).
    + special_point mx 8312121809650132.
      special_point mx 8312121809650133.
      bucket_by_bounds mx (-51).
    + special_point mx 8312121809650132.
      special_point mx 8312121809650133.
      bucket_by_bounds mx (-50).
    + special_point mx 6234091357237599.
      special_point mx 6234091357237600.
      special_point mx 8312121809650132.
      special_point mx 8312121809650133.
      bucket_by_bounds mx (-49).
    + special_point mx 5195076131031332.
      special_point mx 5195076131031333.
      special_point mx 6234091357237599.
      special_point mx 6234091357237600.
      special_point mx 7273106583443865.
      special_point mx 7273106583443866.
      special_point mx 8312121809650132.
      bucket_by_bounds mx (-48).
Qed.

(** The boundaries as the specification writes them coincide with the
    ones the code computes. *)
Lemma boundaries_eq :
  boundary 0 = S754_zero false /\
  boundary 1 = S754_finite false 8312121809650133 (-51) /\
  boundary 2 = S754_finite false 8312121809650133 (-50) /\
  boundary 3 = S754_finite false 6234091357237600 (-49) /\
  boundary 4 = S754_finite false 8312121809650133 (-49) /\
  boundary 5 = S754_finite false 5195076131031333 (-48) /\
  boundary 6 = S754_finite false 6234091357237600 (-48) /\
  boundary 7 = S754_finite false 7273106583443866 (-48) /\
  boundary 8 = S754_finite false 8312121809650133 (-48).
Proof. vm_compute. repeat split. Qed.

Ltac eval_succ :=
  match goal with
  | |- context [boundary (?a + 1)] =>
      let v := eval vm_compute in (a + 1) in change (a + 1) with v
  end.

Ltac split_bucket :=
  unfold bucket;
  repeat match goal with
         | |- context [Z.ltb ?a ?b] => destruct (Z.ltb_spec a b)
         | |- context [Z.eqb ?a ?b] => destruct (Z.eqb_spec a b)
         end.

(** Inside the month, [boundary k <= age < boundary (k + 1)] says that
    [age] is in bucket [k]. *)
Lemma bucket_half_open age k :
  (int 0 <=? age)%py = true -> (age <? SYNODIC_MONTH)%py = true ->
  0 <= k <= 7 ->
  ((boundary k <=? age)%py = true /\ (age <? boundary (k + 1))%py = true)
  <-> bucket age = k.
Proof.
  intros H0 Hfm Hk.
  rewrite SYNODIC_MONTH_eq in Hfm. apply ltb_finite_below in Hfm.
  destruct boundaries_eq as (B0 & B1 & B2 & B3 & B4 & B5 & B6 & B7 & B8).
  assert (Hcases : k = 0 \/ k = 1 \/ k = 2 \/ k = 3 \/ k = 4 \/ k = 5
                   \/ k = 6 \/ k = 7) by lia.
  clear Hk.
  destruct age as [s|s| |s m e]; try discriminate H0.
  - (* a zero is in bucket 0 only *)
    destruct Hcases as [->|[->|[->|[->|[->|[->|[->| ->]]]]]]];
      eval_succ;
      rewrite ?B0, ?B1, ?B2, ?B3, ?B4, ?B5, ?B6, ?B7, ?B8;
      destruct s; vm_compute; split; (intros [? ?] || intros ?);
      first [reflexivity | split; reflexivity | congruence].
  - destruct s; [discriminate H0 | discriminate Hfm].
  - destruct s; [discriminate H0|]. simpl in Hfm.
    destruct Hcases as [->|[->|[->|[->|[->|[->|[->| ->]]]]]]];
      eval_succ;
      rewrite ?B0, ?B1, ?B2, ?B3, ?B4, ?B5, ?B6, ?B7, ?B8;
      rewrite ?leb_finite_at_least, ?ltb_finite_below; simpl.
    + split.
      * intros [_ H]. revert H. split_bucket; lia.
      * intros H. split; [reflexivity|]. revert H. split_bucket; lia.
    + split_bucket; lia.
    + split_bucket; lia.
    + split_bucket; lia.
    + split_bucket; lia.
    + split_bucket; lia.
    + split_bucket; lia.
    + split_bucket; lia.
Qed.

(** ** Properties of the classifier *)

Lemma bucket_range x : 0 <= bucket x <= 7.
Proof.
  destruct x as [[]|[]| |[] m e]; simpl; try lia.
  split_bucket; lia.
Qed.

Lemma phase_label_in k : 0 <= k <= 7 -> In (phase_label k) phase_labels.
Proof.
  intros Hk.
  assert (Hc : k = 0 \/ k = 1 \/ k = 2 \/ k = 3 \/ k = 4 \/ k = 5
               \/ k = 6 \/ k = 7) by lia.
  destruct Hc as [->|[->|[->|[->|[->|[->|[->| ->]]]]]]]; simpl; tauto.
Qed.

(** C1. Inside the synodic month, the classifier returns the label whose
    index is [floor (age_days / (29.530588853 / 8))]; bucket [j] is the
    half-open interval from boundary [j] (included) to boundary [j + 1]
    (excluded); the boundaries [j * (29.530588853 / 8)] are the floats the
    code compares against; at each of them the label is that of the upper
    bucket and at the float just below it that of the lower one; age 0 is
    "New Moon" and half a month is "Full Moon". *)
Theorem phase_name_is_label_of_floor (age_days : F64.float) :
  F64.valid age_days ->
  (int 0 <=? age_days)%py = true ->
  (age_days <? SYNODIC_MONTH)%py = true ->
  (exists k,
     F64.floor (age_days / (SYNODIC_MONTH / int 8))%py = Some k /\
     0 <= k <= 7 /\
     get_phase_name_from_age age_days = nth (Z.to_nat k) phase_labels "" /\
     forall j, 0 <= j <= 7 ->
       ((boundary j <=? age_days)%py = true /\
        (age_days <? boundary (j + 1))%py = true) <-> k = j) /\
  (forall j, 1 <= j <= 7 ->
     boundary j = (SYNODIC_MONTH * int j / int 8)%py /\
     get_phase_name_from_age (boundary j) = phase_label j /\
     get_phase_name_from_age (F64.pred (boundary j)) = phase_label (j - 1)) /\
  get_phase_name_from_age (int 0) = "New Moon" /\
  get_phase_name_from_age (SYNODIC_MONTH / int 2)%py = "Full Moon" /\
  get_phase_name_from_age (SYNODIC_MONTH * F64.lit 5 1)%py = "Full Moon".
Proof.
  intros Hv H0 Hfm.
  split; [|split; [|split; [|split]]].
  - exists (bucket age_days).
    split; [apply floor_div_bucket; assumption|].
    split; [apply bucket_range|].
    split; [apply get_phase_name_bucket|].
    intros j Hj. apply bucket_half_open; assumption.
  - intros j Hj.
    assert (Hc : j = 1 \/ j = 2 \/ j = 3 \/ j = 4 \/ j = 5 \/ j = 6 \/ j = 7)
      by lia.
    destruct Hc as [->|[->|[->|[->|[->|[->| ->]]]]]];
      vm_compute; repeat split; reflexivity.
  - vm_compute. reflexivity.
  - vm_compute. reflexivity.
  - vm_compute. reflexivity.
Qed.

Lemma phase_name_is_label_of_floor_witness :
  F64.valid (F64.lit 123 1) /\
  (int 0 <=? F64.lit 123 1)%py = true /\
  (F64.lit 123 1 <? SYNODIC_MONTH)%py = true /\
  exists k,
    F64.floor (F64.lit 123 1 / (SYNODIC_MONTH / int 8))%py = Some k /\
    get_phase_name_from_age (F64.lit 123 1) = nth (Z.to_nat k) phase_labels "".
Proof.
  repeat (split; [reflexivity|]).
  destruct (phase_name_is_label_of_floor (F64.lit 123 1))
    as ((k & Hk & _ & Hn & _) & _); [reflexivity | reflexivity | reflexivity |].
  exists k. split; [exact Hk | exact Hn].
Defined.

(** C10. The classifier returns one of the eight labels on every float,
    and "New Moon" on every negative one: whatever is below zero is below
    the first boundary, and whatever is below the first boundary passes the
    first comparison. *)
Theorem negative_age_is_new_moon (age_days : F64.float) :
  (age_days <? int 0)%py = true ->
  (age_days <? SYNODIC_MONTH * int 1 / int 8)%py = true /\
  get_phase_name_from_age age_days = "New Moon" /\
  (forall x, (x <? SYNODIC_MONTH * int 1 / int 8)%py = true ->
             get_phase_name_from_age x = "New Moon") /\
  (forall x, In (get_phase_name_from_age x) phase_labels).
Proof.
  intros Hneg.
  assert (Hfirst : forall x, (x <? SYNODIC_MONTH * int 1 / int 8)%py = true ->
                             get_phase_name_from_age x = "New Moon").
  { intros x Hx. unfold get_phase_name_from_age. cbv zeta.
    rewrite Hx. reflexivity. }
  assert (Hlt : (age_days <? SYNODIC_MONTH * int 1 / int 8)%py = true).
  { destruct code_boundaries as (-> & _).
    destruct age_days as [[]|[]| |[] m e]; try discriminate Hneg; reflexivity. }
  split; [exact Hlt|]. split; [apply Hfirst, Hlt|]. split; [exact Hfirst|].
  intros x. rewrite get_phase_name_bucket.
  apply phase_label_in, bucket_range.
Qed.

Lemma negative_age_is_new_moon_witness :
  (int (-3) <? int 0)%py = true /\
  get_phase_name_from_age (int (-3)) = "New Moon".
Proof.
  split; [reflexivity|].
  destruct (negative_age_is_new_moon (int (-3))) as (_ & H & _);
    [reflexivity | exact H].
Defined.

(** ** Properties of the disk renderer *)

Lemma SFcompare_antisym a b :
  SFcompare b a = CompOpp <$> SFcompare a b.
Proof.
  destruct a as [[]|[]| |[] ma ea], b as [[]|[]| |[] mb eb]; try reflexivity;
    simpl; f_equal; rewrite (Z.compare_antisym ea eb);
    destruct (ea ?= eb); simpl; try reflexivity;
    rewrite (Pos.compare_cont_antisym ma mb Eq); simpl;
    try rewrite CompOpp_involutive; reflexivity.
Qed.

Lemma ltb_leb_false a b : (a <? b)%py = true -> (b <=? a)%py = false.
Proof.
  unfold F64.ltb, F64.leb, SFltb, SFleb.
  rewrite (SFcompare_antisym a b).
  destruct (SFcompare a b) as [[]|]; simpl; congruence.
Qed.

(** C2. The shadow offset is [(1 - 2*illumination/100)*0.4] for every
    illumination, in [[0, 100]] in particular: [+0.4] at 0, [-0.4] at 100
    and 0 at 50, where the shadow circle is centred at [x = 0.5] whichever
    branch computes it. *)
Theorem shadow_offset_values (illumination : F64.float) :
  shadow_offset illumination = spec_shadow_offset illumination /\
  shadow_offset (int 0) = F64.lit 4 1 /\
  shadow_offset (int 100) = SFopp (F64.lit 4 1) /\
  shadow_offset (int 50) = S754_zero false /\
  (F64.lit 5 1 + shadow_offset (int 50))%py = F64.lit 5 1 /\
  (F64.lit 5 1 - shadow_offset (int 50))%py = F64.lit 5 1 /\
  shadow_x (int 50) = F64.lit 5 1 /\
  center_x <$> moon_patches (int 50) = [F64.lit 5 1; F64.lit 5 1].
Proof.
  split; [reflexivity|]. vm_compute. repeat split.
Qed.

(** C3. The lit disk is the circle of radius 0.4 centred at (0.5, 0.5);
    the shadow is a circle of the same radius and height, centred at
    [x = 0.5 + offset] when [illumination <= 50] and at [x = 0.5 - offset]
    when [illumination > 50]. *)
Theorem shadow_center (illumination : F64.float) :
  let offset := spec_shadow_offset illumination in
  ((illumination <=? int 50)%py = true ->
   moon_patches illumination =
     [ mkCircle (F64.lit 5 1) (F64.lit 5 1) (F64.lit 4 1) "white";
       mkCircle (F64.lit 5 1 + offset)%py (F64.lit 5 1) (F64.lit 4 1) "black" ])
  /\
  ((int 50 <? illumination)%py = true ->
   moon_patches illumination =
     [ mkCircle (F64.lit 5 1) (F64.lit 5 1) (F64.lit 4 1) "white";
       mkCircle (F64.lit 5 1 - offset)%py (F64.lit 5 1) (F64.lit 4 1) "black" ]).
Proof.
  intros offset. unfold moon_patches, shadow_x. cbv zeta. split.
  - intros ->. reflexivity.
  - intros H. rewrite (ltb_leb_false _ _ H). reflexivity.
Qed.

Lemma shadow_center_witness :
  (int 25 <=? int 50)%py = true /\
  (int 50 <? int 75)%py = true /\
  center_x <$> moon_patches (int 25) = [F64.lit 5 1; F64.lit 7 1] /\
  center_x <$> moon_patches (int 75) = [F64.lit 5 1; F64.lit 7 1].
Proof.
  split; [reflexivity|]. split; [reflexivity|].
  destruct (shadow_center (int 25)) as [H25 _].
  destruct (shadow_center (int 75)) as [_ H75].
  rewrite H25, H75 by reflexivity. vm_compute. split; reflexivity.
Defined.

(** ** Trimming *)

Lemma lstrip_all_space s : all_space s = true -> lstrip s = "".
Proof.
  induction s as [|c s IH]; simpl; [done|].
  intros [Hc Hs]%andb_prop. rewrite Hc. auto.
Qed.

Lemma lstrip_head s :
  lstrip s = "" \/ exists c t, lstrip s = String c t /\ isspace c = false.
Proof.
  induction s as [|c s IH]; simpl; [by left|].
  destruct (isspace c) eqn:Hc; [exact IH|].
  right. by exists c, s.
Qed.

Lemma rstrip_head c t :
  isspace c = false -> exists t', rstrip (String c t) = String c t'.
Proof.
  intros Hc. simpl. rewrite Hc. destruct (rstrip t); eauto.
Qed.

Lemma rstrip_idempotent s : rstrip (rstrip s) = rstrip s.
Proof.
  induction s as [|c s IH]; simpl; [done|].
  destruct (rstrip s) as [|a r] eqn:E.
  - destruct (isspace c) eqn:Hc; simpl; [done|]. by rewrite Hc.
  - change (rstrip (String c (String a r))) with
      (match rstrip (String a r) with
       | EmptyString => if isspace c then EmptyString else String c EmptyString
       | r' => String c r'
       end).
    by rewrite IH.
Qed.

Lemma strip_idempotent s : strip (strip s) = strip s.
Proof.
  unfold strip.
  destruct (lstrip_head s) as [->|(c & t & -> & Hc)]; [done|].
  destruct (rstrip_head c t Hc) as [t' E].
  rewrite E. simpl lstrip. rewrite Hc, <- E. apply rstrip_idempotent.
Qed.

Lemma strip_all_space s : all_space s = true -> strip s = "".
Proof. intros H. unfold strip. by rewrite lstrip_all_space. Qed.

Lemma strip_empty_all_space s : strip s = "" -> all_space s = true.
Proof.
  unfold strip. intros H.
  assert (Hl : lstrip s = "").
  { destruct (lstrip_head s) as [E|(c & t & E & Hc)]; [done|].
    rewrite E in H. destruct (rstrip_head c t Hc) as [t' E'].
    congruence. }
  clear H. induction s as [|c s IH]; simpl in *; [done|].
  destruct (isspace c); [auto|discriminate].
Qed.

Ltac push_append :=
  repeat match goal with
         | |- context [(String ?c ?a ++ ?b)%string] =>
             change (String c a ++ b)%string with (String c (a ++ b)%string)
         | |- context [(EmptyString ++ ?b)%string] =>
             change (EmptyString ++ b)%string with b
         end.

Lemma lstrip_leading pre s :
  all_space pre = true -> lstrip (pre ++ s) = lstrip s.
Proof.
  induction pre as [|c pre IH]; [done|].
  cbn [all_space]. intros [Hc Hp]%andb_prop.
  push_append. cbn [lstrip]. rewrite Hc. auto.
Qed.

Lemma lstrip_no_leading s : starts_with_space s = false -> lstrip s = s.
Proof. destruct s as [|c s]; [done|]. cbn. by intros ->. Qed.

Lemma rstrip_all_space s : all_space s = true -> rstrip s = "".
Proof.
  induction s as [|c s IH]; [done|].
  cbn [all_space rstrip]. intros [Hc Hs]%andb_prop.
  by rewrite (IH Hs), Hc.
Qed.

(** Whitespace after a string that does not end in whitespace is what
    [rstrip] removes, and nothing else. *)
Lemma rstrip_trailing core post :
  ends_with_space core = false -> all_space post = true ->
  rstrip (core ++ post) = core.
Proof.
  intros Hc Hp. induction core as [|c s IH].
  - push_append. by apply rstrip_all_space.
  - push_append. cbn [rstrip]. destruct s as [|a s'].
    + push_append. rewrite (rstrip_all_space post Hp).
      cbn [ends_with_space] in Hc. by rewrite Hc.
    + rewrite IH by exact Hc. reflexivity.
Qed.

(** [strip] removes the whitespace around a string that neither starts
    nor ends with whitespace, and nothing else. *)
Lemma strip_padded pre core post :
  all_space pre = true -> all_space post = true ->
  starts_with_space core = false -> ends_with_space core = false ->
  strip (pre ++ core ++ post) = core.
Proof.
  intros Hpre Hpost Hs He. unfold strip.
  rewrite lstrip_leading by done.
  destruct core as [|c s].
  - push_append. by rewrite lstrip_all_space.
  - rewrite lstrip_no_leading by (push_append; exact Hs).
    by apply rstrip_trailing.
Qed.

Lemma strip_edge_free core :
  starts_with_space core = false -> ends_with_space core = false ->
  strip core = core.
Proof.
  intros Hs He.
  pose proof (strip_padded "" core "" eq_refl eq_refl Hs He) as H.
  change ("" ++ core ++ "")%string with (core ++ "")%string in H.
  assert (Hnil : (core ++ "")%string = core).
  { clear. induction core as [|c s IH]; [done|]. push_append. by rewrite IH. }
  by rewrite Hnil in H.
Qed.

Lemma lstrip_split s :
  exists pre, s = (pre ++ lstrip s)%string /\ all_space pre = true /\
              starts_with_space (lstrip s) = false.
Proof.
  induction s as [|c s (pre & E & Hp & Hs)]; [by exists ""|].
  cbn [lstrip]. destruct (isspace c) eqn:Hc.
  - exists (String c pre). push_append. rewrite <- E.
    cbn [all_space]. by rewrite Hc, Hp.
  - exists "". by push_append.
Qed.

Lemma rstrip_split s :
  exists post, s = (rstrip s ++ post)%string /\ all_space post = true /\
               ends_with_space (rstrip s) = false.
Proof.
  induction s as [|c s (post & E & Hp & He)]; [by exists ""|].
  cbn [rstrip]. destruct (rstrip s) as [|a r] eqn:Er.
  - push_append. change (EmptyString ++ post)%string with post in E. subst s.
    destruct (isspace c) eqn:Hc.
    + exists (String c post). push_append. cbn [all_space].
      by rewrite Hc, Hp.
    + exists post. push_append. cbn [ends_with_space]. by rewrite Hc.
  - exists post. split; [|by split].
    change (String c (String a r) ++ post)%string
      with (String c (String a r ++ post)%string).
    by rewrite <- E.
Qed.

(** Every string is a string without whitespace at its ends, between two
    runs of whitespace. *)
Lemma padded_form u :
  exists pre core post,
    u = (pre ++ core ++ post)%string /\
    all_space pre = true /\ all_space post = true /\
    starts_with_space core = false /\ ends_with_space core = false.
Proof.
  destruct (lstrip_split u) as (pre & E1 & Hpre & Hs).
  destruct (rstrip_split (lstrip u)) as (post & E2 & Hpost & He).
  exists pre, (rstrip (lstrip u)), post.
  rewrite <- E2. repeat split; try done.
  destruct (lstrip u) as [|c t] eqn:El; [done|].
  cbn [starts_with_space] in Hs.
  destruct (rstrip_head c t Hs) as [t' ->]. exact Hs.
Qed.

(** ** Registration and login, request by request *)

Lemma truthy_str s : truthy (VStr s) = negb (String.eqb s "").
Proof. reflexivity. Qed.

Lemma register_eq lib cfg amb req db json u p :
  get_json req = Ok json ->
  field_is json "username" u -> field_is json "password" p ->
  register lib cfg amb req db =
  if String.eqb (strip u) "" || String.eqb p "" then
    Ok (message 400 "Missing username or password", db)
  else
    match first_by_username db (strip u) with
    | Some _ => Ok (message 400 "Username already exists", db)
    | None => Ok (message 201 "Registration successful",
                  (db ++ [new_user lib amb db (strip u) p]))
    end.
Proof.
  unfold field_is, register. intros -> Hu Hp.
  cbn [mbind result_bind]. rewrite Hu, Hp. cbn [mbind result_bind strip_method].
  rewrite !truthy_str, !negb_involutive.
  destruct (String.eqb (strip u) "" || String.eqb p ""); [done|].
  destruct (first_by_username db (strip u)); done.
Qed.

Lemma login_eq lib cfg amb req db json u p :
  get_json req = Ok json ->
  field_is json "username" u -> field_is json "password" p ->
  login lib cfg amb req db =
  if String.eqb (strip u) "" || String.eqb p "" then
    Ok (message 400 "Missing username or password", db)
  else
    match first_by_username db (strip u) with
    | None => Ok (message 401 "Invalid credentials", db)
    | Some (i, usr) =>
        if check_password_hash lib (password usr) p
        then Ok (login_success lib cfg amb i usr db)
        else Ok (message 401 "Invalid credentials", db)
    end.
Proof.
  unfold field_is, login. intros -> Hu Hp.
  cbn [mbind result_bind]. rewrite Hu, Hp. cbn [mbind result_bind strip_method].
  rewrite !truthy_str, !negb_involutive.
  destruct (String.eqb (strip u) "" || String.eqb p ""); [done|].
  destruct (first_by_username db (strip u)) as [[i usr]|]; [|done].
  cbn [py_check_password_hash mbind result_bind].
  destruct (check_password_hash lib (password usr) p); done.
Qed.

Lemma first_by_username_None db s :
  first_by_username db s = None <->
  forall row, row ∈ db -> username row <> s.
Proof.
  unfold first_by_username. rewrite list_find_None, Forall_forall. done.
Qed.

Lemma first_by_username_Some db s i u :
  first_by_username db s = Some (i, u) ->
  db !! i = Some u /\ s = username u.
Proof.
  unfold first_by_username.
  intros (H1 & H2 & _)%list_find_Some. by subst.
Qed.


Lemma eqb_empty_false s : s <> "" -> String.eqb s "" = false.
Proof. intros H. by apply String.eqb_neq. Qed.



(** C9. Both endpoints remove the whitespace before and after the
    username, and none from the password.  Take a username written as a
    name that neither starts nor ends with whitespace, with whitespace
    before it and after it; every string can be written so.  If the name is empty, the username being
    whitespace only, both endpoints answer 400, whatever the password.  A
    request with the bare name and the same password field is served
    exactly as this one.  With a password that is a non-empty string, of
    whitespace only or not, registration stores the bare name and the
    library's hash of the password as sent, and login looks up the bare
    name and has the library check the password as sent. *)
Theorem username_trimmed_password_kept lib cfg amb req db json pre core post :
  get_json req = Ok json ->
  field_is json "username" (pre ++ core ++ post) ->
  all_space pre = true -> all_space post = true ->
  starts_with_space core = false -> ends_with_space core = false ->
  (core = "" ->
   register lib cfg amb req db
   = Ok (message 400 "Missing username or password", db) /\
   login lib cfg amb req db
   = Ok (message 400 "Missing username or password", db)) /\
  (forall req' json',
     get_json req' = Ok json' ->
     field_is json' "username" core ->
     get (or_empty_dict json') "password" (VStr "")
     = get (or_empty_dict json) "password" (VStr "") ->
     register lib cfg amb req' db = register lib cfg amb req db /\
     login lib cfg amb req' db = login lib cfg amb req db) /\
  (forall p,
     field_is json "password" p -> core <> "" -> p <> "" ->
     ((forall r, r ∈ db -> username r <> core) ->
      register lib cfg amb req db
      = Ok (message 201 "Registration successful",
            db ++ [new_user lib amb db core p]) /\
      username (new_user lib amb db core p) = core /\
      password (new_user lib amb db core p)
      = generate_password_hash lib p (salt amb) /\
      login lib cfg amb req db = Ok (message 401 "Invalid credentials", db)) /\
     (forall i usr,
        first_by_username db core = Some (i, usr) ->
        username usr = core /\
        login lib cfg amb req db
        = if check_password_hash lib (password usr) p
          then Ok (login_success lib cfg amb i usr db)
          else Ok (message 401 "Invalid credentials", db))) /\
  (forall u : string,
     exists pre' core' post',
       u = (pre' ++ core' ++ post')%string /\
       all_space pre' = true /\ all_space post' = true /\
       starts_with_space core' = false /\ ends_with_space core' = false).
Proof.
  intros Hj Hu Hpre Hpost Hs He.
  pose proof (strip_padded pre core post Hpre Hpost Hs He) as Hstrip.
  split; [|split; [|split]].
  - intros ->. unfold register, login, field_is in *. rewrite Hj.
    cbn [mbind result_bind]. rewrite Hu.
    cbn [mbind result_bind strip_method]. rewrite Hstrip.
    destruct (or_empty_dict json); try discriminate Hu.
    cbn [get mbind result_bind]. done.
  - intros req' json' Hj' Hu' Hp'. unfold register, login, field_is in *.
    rewrite Hj, Hj'. cbn [mbind result_bind]. rewrite Hu, Hu'.
    cbn [mbind result_bind strip_method].
    rewrite Hstrip, (strip_edge_free core Hs He), Hp'. done.
  - intros p Hp Hcn Hpn.
    rewrite (register_eq lib cfg amb req db json _ p Hj Hu Hp).
    rewrite (login_eq lib cfg amb req db json _ p Hj Hu Hp).
    rewrite Hstrip, !eqb_empty_false by done. cbn [orb].
    split.
    + intros Hfresh.
      by rewrite (proj2 (first_by_username_None db core) Hfresh).
    + intros i usr Hf. rewrite Hf.
      by destruct (first_by_username_Some _ _ _ _ Hf) as [_ <-].
  - apply padded_form.
Qed.

(** ** The guard *)

Lemma token_required_eq f lib cfg amb req db :
  token_required f lib cfg amb req db =
  match bearer_token (authorization req) with
  | None => Ok (message 401 "Invalid or missing Authorization header", db)
  | Some token =>
      guarded db
        (payload ← jwt_decode lib token (SECRET_KEY cfg) ["HS256"] (clock amb 0);
         name ← payload_getitem_username payload;
         match first_by_username db name with
         | None => Ok (message 401 "User not found", db)
         | Some user => f user lib cfg amb req db
         end)
  end.
Proof.
  unfold token_required, bearer_token, guarded.
  destruct (split (default "" (authorization req))) as [|a [|b [|c l]]];
    try reflexivity.
  cbn [length Nat.eqb negb orb nth].
  destruct (String.eqb (lower a) "bearer"); reflexivity.
Qed.

(** C6. The guard answers 401 with a message of its own in each of four
    cases: the header is missing or malformed, the token has expired, the
    token is invalid in another way, the token names no stored account.
    The protected handler runs only on a well-formed header whose token
    decodes to a payload naming a stored account. *)
Theorem token_required_outcomes f lib cfg amb req db :
  let decode token :=
    jwt_decode lib token (SECRET_KEY cfg) ["HS256"] (clock amb 0) in
  let answer := token_required f lib cfg amb req db in
  (bearer_token (authorization req) = None ->
   answer = Ok (message 401 "Invalid or missing Authorization header", db)) /\
  (forall token,
     bearer_token (authorization req) = Some token ->
     (decode token = Raise ExpiredSignatureError ->
      answer = Ok (message 401 "Token has expired", db)) /\
     (forall e, decode token = Raise e -> e <> ExpiredSignatureError ->
      answer = Ok (message 401 "Invalid token", db)) /\
     (forall payload,
        decode token = Ok payload ->
        (payload_username payload = None ->
         answer = Ok (message 401 "Invalid token", db)) /\
        (forall name, payload_username payload = Some name ->
           (first_by_username db name = None ->
            answer = Ok (message 401 "User not found", db)) /\
           (forall user, first_by_username db name = Some user ->
              answer = guarded db (f user lib cfg amb req db))))) /\
  (forall g,
     (forall token payload name user,
        bearer_token (authorization req) = Some token ->
        decode token = Ok payload ->
        payload_username payload = Some name ->
        first_by_username db name = Some user -> False) ->
     token_required g lib cfg amb req db = answer) /\
  NoDup guard_messages.
Proof.
  intros decode answer. subst answer. rewrite token_required_eq.
  split; [|split; [|split]].
  - by intros ->.
  - intros token ->. fold (decode token).
    split; [by intros ->|]. split.
    { intros e -> He. by destruct e. }
    intros payload ->. cbn [mbind result_bind].
    unfold payload_getitem_username. split; [intros H; by rewrite H|].
    intros name H. rewrite H. cbn [mbind result_bind].
    split; [by intros ->|]. by intros user ->.
  - intros g Hnone. rewrite token_required_eq.
    destruct (bearer_token (authorization req)) as [token|]; [|done].
    fold (decode token). specialize (Hnone token).
    destruct (decode token) as [payload|e]; [|done].
    cbn [mbind result_bind]. specialize (Hnone payload).
    unfold payload_getitem_username.
    destruct (payload_username payload) as [name|]; [|done].
    cbn [mbind result_bind]. specialize (Hnone name).
    destruct (first_by_username db name) as [user|]; [|done].
    by destruct (Hnone user).
  - unfold guard_messages.
    repeat (apply NoDup_cons; split;
            [rewrite ?elem_of_cons, elem_of_nil; intros H;
             repeat destruct H as [H|H]; discriminate || done|]).
    apply NoDup_nil_2.
Qed.

(** ** What each endpoint does to the table *)

Ltac step_bind :=
  cbn [mbind result_bind];
  match goal with
  | |- context [@mbind result _ _ _ _ ?m] =>
      let E := fresh "E" in destruct m eqn:E
  end;
  cbn [mbind result_bind].

Lemma register_cases lib cfg amb req db :
  match register lib cfg amb req db with
  | Ok (resp, db') =>
      (status resp = 400 /\ db' = db) \/
      (status resp = 201 /\ exists row, db' = db ++ [row])
  | Raise _ => True
  end.
Proof.
  unfold register.
  step_bind; [|done]. step_bind; [|done]. step_bind; [|done].
  destruct (_ || _); [by left|].
  destruct (first_by_username db _); [by left|].
  step_bind; [|done]. right. eauto.
Qed.

Lemma login_cases lib cfg amb req db :
  match login lib cfg amb req db with
  | Ok (resp, db') =>
      ((status resp = 400 \/ status resp = 401) /\ db' = db) \/
      (exists i usr,
         db !! i = Some usr /\
         (resp, db') = login_success lib cfg amb i usr db)
  | Raise _ => True
  end.
Proof.
  unfold login.
  step_bind; [|done]. step_bind; [|done]. step_bind; [|done].
  destruct (_ || _); [left; auto|].
  destruct (first_by_username db _) as [[i usr]|] eqn:Hf; [|left; auto].
  apply first_by_username_Some in Hf as [Hi _].
  step_bind; [|done].
  destruct (negb _); [left; auto|].
  right. by exists i, usr.
Qed.

Lemma get_moon_phase_cases i usr lib cfg amb req db :
  match get_moon_phase (i, usr) lib cfg amb req db with
  | Ok (resp, db') =>
      (status resp = 400 /\ db' = db) \/
      (status resp = 200 /\
       db' = <[i := set_calculations (calculations usr + 1) usr]> db /\
       body_field resp "calculations" = Some (VInt (calculations usr + 1)))
  | Raise _ => True
  end.
Proof.
  unfold get_moon_phase.
  step_bind; [|done]. step_bind; [|done].
  destruct (negb _); [by left|].
  destruct (ephem_Date lib _); [|by left].
  right. done.
Qed.

(** The protected endpoint always answers, with 401 or 400 and the table
    as it was, or with 200 and one counter incremented. *)
Lemma serve_get_moon_phase lib cfg amb req db :
  exists resp db',
    serve lib cfg GetMoonPhase amb req db = (resp, db') /\
    (((status resp = 400 \/ status resp = 401) /\ db' = db) \/
     (status resp = 200 /\
      exists token payload name i usr,
        bearer_token (authorization req) = Some token /\
        jwt_decode lib token (SECRET_KEY cfg) ["HS256"] (clock amb 0)
        = Ok payload /\
        payload_username payload = Some name /\
        first_by_username db name = Some (i, usr) /\
        db' = <[i := set_calculations (calculations usr + 1) usr]> db /\
        body_field resp "calculations" = Some (VInt (calculations usr + 1)))).
Proof.
  unfold serve, view. rewrite token_required_eq.
  destruct (bearer_token (authorization req)) as [token|];
    [|eexists _, _; split; [done|]; left; auto].
  destruct (jwt_decode lib token (SECRET_KEY cfg) ["HS256"] (clock amb 0))
    as [payload|e] eqn:Hd; cbn [mbind result_bind];
    [|destruct e; eexists _, _; (split; [done|]); left; auto].
  unfold payload_getitem_username.
  destruct (payload_username payload) as [name|] eqn:Hn;
    cbn [mbind result_bind];
    [|eexists _, _; (split; [done|]); left; auto].
  destruct (first_by_username db name) as [[i usr]|] eqn:Hf;
    [|eexists _, _; split; [done|]; left; auto].
  pose proof (get_moon_phase_cases i usr lib cfg amb req db) as Hc.
  destruct (get_moon_phase (i, usr) lib cfg amb req db) as [[resp db']|e].
  - exists resp, db'. split; [done|].
    destruct Hc as [[? ->]|(? & -> & ?)]; [left; auto|].
    right. split; [done|]. by exists token, payload, name, i, usr.
  - destruct e; eexists _, _; (split; [done|]); left; auto.
Qed.

(** C5. When the protected endpoint answers with an error, which is a 400
    or a 401, the table is exactly what it was: no row has lost or gained
    anything, its counter and its last login included. *)
Theorem get_moon_phase_error_keeps_table lib cfg amb req db resp db' :
  serve lib cfg GetMoonPhase amb req db = (resp, db') ->
  status resp <> 200 ->
  (status resp = 400 \/ status resp = 401) /\
  db' = db /\
  forall i, (calculations <$> db' !! i) = (calculations <$> db !! i) /\
            (last_login <$> db' !! i) = (last_login <$> db !! i).
Proof.
  intros Hs Hne.
  destruct (serve_get_moon_phase lib cfg amb req db)
    as (resp0 & db0 & Hs0 & [[Hst ->]|[Hst _]]);
    rewrite Hs in Hs0; injection Hs0 as <- <-; [|done].
  split; [exact Hst|]. split; [reflexivity|]. by intros i.
Qed.

Lemma serve_keeps_rows lib cfg r amb req db i u :
  db !! i = Some u ->
  exists u',
    snd (serve lib cfg r amb req db) !! i = Some u' /\
    id u' = id u /\ username u' = username u /\
    calculations u <= calculations u'.
Proof.
  intros Hi.
  assert (Hsame : exists u', db !! i = Some u' /\ id u' = id u /\
                    username u' = username u /\
                    calculations u <= calculations u')
    by (exists u; repeat split; [done|lia]).
  assert (Hupd : forall j usr (g : User -> User),
            db !! j = Some usr ->
            id (g usr) = id usr -> username (g usr) = username usr ->
            calculations usr <= calculations (g usr) ->
            exists u', <[j := g usr]> db !! i = Some u' /\ id u' = id u /\
                       username u' = username u /\
                       calculations u <= calculations u').
  { intros j usr g Hj H1 H2 H3.
    destruct (decide (j = i)) as [->|Hji].
    - assert (usr = u) as -> by congruence. exists (g u).
      rewrite list_lookup_insert_eq by (by eapply lookup_lt_Some). done.
    - rewrite list_lookup_insert_ne by done. exact Hsame. }
  destruct r; [unfold serve, view..|].
  - pose proof (register_cases lib cfg amb req db) as Hc.
    destruct (register lib cfg amb req db) as [[resp db']|e];
      [|by destruct e].
    destruct Hc as [[_ ->]|[_ [row ->]]]; [exact Hsame|].
    cbn [snd]. rewrite lookup_app_l by (by eapply lookup_lt_Some).
    exact Hsame.
  - pose proof (login_cases lib cfg amb req db) as Hc.
    destruct (login lib cfg amb req db) as [[resp db']|e];
      [|by destruct e].
    destruct Hc as [[_ ->]|(j & usr & Hj & Heq)]; [exact Hsame|].
    injection Heq as -> ->. cbn [snd].
    apply (Hupd j usr (set_last_login (clock amb 0))); simpl; (done || lia).
  - destruct (serve_get_moon_phase lib cfg amb req db)
      as (resp & db' & -> & [[_ ->]|[_ H]]); [exact Hsame|].
    destruct H as (token & payload & name & j & usr & _ & _ & _ & Hf & -> & _).
    apply first_by_username_Some in Hf as [Hj _]. cbn [snd].
    apply (Hupd j usr (set_calculations (calculations usr + 1)));
      simpl; (done || lia).
Qed.

(** C4. Over any sequence of requests, the counter of every account only
    grows; one successful [/get-moon-phase] request adds exactly one to the
    counter of the account its token names, changes no other row, and
    reports the counter as stored after the increment. *)
Theorem calculations_counter lib cfg :
  (forall calls db i u,
     db !! i = Some u ->
     exists u', run lib cfg calls db !! i = Some u' /\
                id u' = id u /\ username u' = username u /\
                calculations u <= calculations u') /\
  (forall amb req db resp db',
     serve lib cfg GetMoonPhase amb req db = (resp, db') ->
     status resp = 200 ->
     exists token payload i usr,
       bearer_token (authorization req) = Some token /\
       jwt_decode lib token (SECRET_KEY cfg) ["HS256"] (clock amb 0)
       = Ok payload /\
       payload_username payload = Some (username usr) /\
       db !! i = Some usr /\
       db' = <[i := set_calculations (calculations usr + 1) usr]> db /\
       (calculations <$> db' !! i) = Some (calculations usr + 1) /\
       body_field resp "calculations" = (VInt ∘ calculations) <$> db' !! i).
Proof.
  split.
  - intros calls. induction calls as [|c calls IH]; intros db i u Hi.
    + exists u. repeat split; [done|simpl; lia].
    + cbn [run foldl].
      destruct (serve_keeps_rows lib cfg (call_route c) (call_ambient c)
                  (call_request c) db i u Hi) as (u1 & H1 & Hid & Hn & Hc).
      destruct (IH _ i u1 H1) as (u2 & H2 & Hid2 & Hn2 & Hc2).
      exists u2. unfold run in H2. repeat split; [done|congruence..|lia].
  - intros amb req db resp db' Hs Hst.
    destruct (serve_get_moon_phase lib cfg amb req db)
      as (resp0 & db0 & Hs0 & [[Hbad _]|[_ H]]);
      rewrite Hs in Hs0; injection Hs0 as <- <-; [lia|].
    destruct H as (token & payload & name & i & usr & Hb & Hd & Hn & Hf & -> & Hbody).
    apply first_by_username_Some in Hf as [Hi ->].
    exists token, payload, i, usr.
    assert (Hl : <[i := set_calculations (calculations usr + 1) usr]> db !! i
                 = Some (set_calculations (calculations usr + 1) usr)).
    { apply list_lookup_insert_eq. by eapply lookup_lt_Some. }
    rewrite Hl. repeat split; done.
Qed.

(** ** Tokens *)

(** C8, as stated, fails: a deployment whose environment sets
    [SECRET_KEY] still signs with the constant written in the program, and
    so does every other one. *)
Lemma issued_tokens_claim_fails :
  environ Demo.deployment "SECRET_KEY" = Some "s3cr3t" /\
  SECRET_KEY (app_config Demo.deployment) = "dev-key-123" /\
  ~ issued_tokens_claim.
Proof.
  split; [reflexivity|]. split; [reflexivity|].
  intros [_ (d1 & d2 & H)]. by apply H.
Qed.

(** C8, amended. A token issued by [/login] is the HS256 encoding of the
    payload with exactly the user's name and an expiry 24 hours after the
    clock reading taken for it, signed with the application's
    [SECRET_KEY]; in every deployment that key is ['dev-key-123']. *)
Theorem login_token lib d amb req db resp db' :
  login lib (app_config d) amb req db = Ok (resp, db') ->
  status resp = 200 ->
  exists i usr,
    db !! i = Some usr /\
    body_field resp "token"
    = Some (VStr (jwt_encode lib
                    {| payload_username := Some (username usr);
                       payload_exp := Some (clock amb 1 + hours_24) |}
                    "dev-key-123" "HS256")) /\
    hours_24 = 24 * 60 * 60 * 1000000 /\
    SECRET_KEY (app_config d) = "dev-key-123".
Proof.
  intros Hl Hst.
  pose proof (login_cases lib (app_config d) amb req db) as Hc.
  rewrite Hl in Hc.
  destruct Hc as [[[H|H] _]|(i & usr & Hi & Heq)]; [lia|lia|].
  exists i, usr. injection Heq as -> ->. done.
Qed.

(** ** The service and the theorems at work on the toy instance *)

Example demo_session :
  calculations <$> run Demo.lib Demo.cfg Demo.session [] = [2] /\
  username <$> run Demo.lib Demo.cfg Demo.session [] = ["alice"].
Proof. vm_compute. split; reflexivity. Qed.

Example demo_first_phase_query :
  let '(resp, db) :=
    serve Demo.lib Demo.cfg GetMoonPhase Demo.amb
      (Demo.phase_query (Some "Bearer jwt.alice") "2024-01-11") [Demo.alice] in
  status resp = 200 /\
  body_field resp "phase_name" = Some (VStr "New Moon") /\
  body_field resp "calculations" = Some (VInt 1) /\
  calculations <$> db = [1].
Proof. vm_compute. repeat split. Qed.

Lemma calculations_counter_witness :
  exists u',
    run Demo.lib Demo.cfg Demo.session [Demo.alice] !! 0%nat = Some u' /\
    id u' = id Demo.alice /\ username u' = username Demo.alice /\
    calculations Demo.alice <= calculations u'.
Proof.
  apply (proj1 (calculations_counter Demo.lib Demo.cfg)
           Demo.session [Demo.alice] 0%nat Demo.alice).
  reflexivity.
Defined.

Lemma get_moon_phase_error_keeps_table_witness :
  serve Demo.lib Demo.cfg GetMoonPhase Demo.amb
    (Demo.phase_query (Some "Bearer stale") "2024-01-11") [Demo.alice]
  = (message 401 "Token has expired", [Demo.alice]) /\
  status (message 401 "Token has expired") <> 200 /\
  (status (message 401 "Token has expired") = 400 \/
   status (message 401 "Token has expired") = 401).
Proof.
  split; [reflexivity|]. split; [discriminate|].
  apply (get_moon_phase_error_keeps_table Demo.lib Demo.cfg Demo.amb
           (Demo.phase_query (Some "Bearer stale") "2024-01-11")
           [Demo.alice] (message 401 "Token has expired") [Demo.alice]).
  - reflexivity.
  - discriminate.
Defined.

Lemma token_required_outcomes_witness :
  bearer_token (authorization (Demo.phase_query (Some "Token jwt.alice") "2024-01-11"))
  = None /\
  token_required get_moon_phase Demo.lib Demo.cfg Demo.amb
    (Demo.phase_query (Some "Token jwt.alice") "2024-01-11") [Demo.alice]
  = Ok (message 401 "Invalid or missing Authorization header", [Demo.alice]).
Proof.
  split; [reflexivity|].
  apply (proj1 (token_required_outcomes get_moon_phase Demo.lib Demo.cfg
                  Demo.amb
                  (Demo.phase_query (Some "Token jwt.alice") "2024-01-11")
                  [Demo.alice])).
  reflexivity.
Defined.


Lemma login_token_witness :
  login Demo.lib (app_config Demo.deployment) Demo.amb
    (Demo.credentials "alice" "pw1") [Demo.alice]
  = Ok (login_success Demo.lib Demo.cfg Demo.amb 0 Demo.alice [Demo.alice]) /\
  exists i usr,
    [Demo.alice] !! i = Some usr /\
    body_field (fst (login_success Demo.lib Demo.cfg Demo.amb 0 Demo.alice
                       [Demo.alice])) "token"
    = Some (VStr (jwt_encode Demo.lib
                    {| payload_username := Some (username usr);
                       payload_exp := Some (clock Demo.amb 1 + hours_24) |}
                    "dev-key-123" "HS256")).
Proof.
  split; [reflexivity|].
  destruct (login_token Demo.lib Demo.deployment Demo.amb
              (Demo.credentials "alice" "pw1") [Demo.alice]
              (fst (login_success Demo.lib Demo.cfg Demo.amb 0 Demo.alice
                      [Demo.alice]))
              (snd (login_success Demo.lib Demo.cfg Demo.amb 0 Demo.alice
                      [Demo.alice])))
    as (i & usr & Hi & Ht & _).
  - reflexivity.
  - reflexivity.
  - exists i, usr. split; [exact Hi | exact Ht].
Defined.

Lemma username_trimmed_password_kept_witness :
  login Demo.lib Demo.cfg Demo.amb (Demo.credentials "alice " "pw1")
    [Demo.alice]
  = Ok (login_success Demo.lib Demo.cfg Demo.amb 0 Demo.alice [Demo.alice]) /\
  login Demo.lib Demo.cfg Demo.amb (Demo.credentials "alice " "pw1 ")
    [Demo.alice]
  = Ok (message 401 "Invalid credentials", [Demo.alice]) /\
  register Demo.lib Demo.cfg Demo.amb (Demo.credentials "  bob " " ")
    [Demo.alice]
  = Ok (message 201 "Registration successful",
        [Demo.alice; new_user Demo.lib Demo.amb [Demo.alice] "bob" " "]) /\
  register Demo.lib Demo.cfg Demo.amb (Demo.credentials "  " "pw1") []
  = Ok (message 400 "Missing username or password", []).
Proof.
  destruct (username_trimmed_password_kept Demo.lib Demo.cfg Demo.amb
              (Demo.credentials "alice " "pw1") [Demo.alice]
              (VDict [("username", VStr "alice "); ("password", VStr "pw1")])
              "" "alice" " " eq_refl eq_refl eq_refl eq_refl eq_refl eq_refl)
    as (_ & _ & H1 & _).
  destruct (H1 "pw1" eq_refl ltac:(discriminate) ltac:(discriminate))
    as [_ H1'].
  destruct (H1' 0%nat Demo.alice eq_refl) as [_ Hl1].
  destruct (username_trimmed_password_kept Demo.lib Demo.cfg Demo.amb
              (Demo.credentials "alice " "pw1 ") [Demo.alice]
              (VDict [("username", VStr "alice "); ("password", VStr "pw1 ")])
              "" "alice" " " eq_refl eq_refl eq_refl eq_refl eq_refl eq_refl)
    as (_ & _ & H2 & _).
  destruct (H2 "pw1 " eq_refl ltac:(discriminate) ltac:(discriminate))
    as [_ H2'].
  destruct (H2' 0%nat Demo.alice eq_refl) as [_ Hl2].
  destruct (username_trimmed_password_kept Demo.lib Demo.cfg Demo.amb
              (Demo.credentials "  bob " " ") [Demo.alice]
              (VDict [("username", VStr "  bob "); ("password", VStr " ")])
              "  " "bob" " " eq_refl eq_refl eq_refl eq_refl eq_refl eq_refl)
    as (_ & _ & H3 & _).
  destruct (H3 " " eq_refl ltac:(discriminate) ltac:(discriminate))
    as [H3' _].
  destruct H3' as (Hr3 & _).
  { intros r [->|[]%elem_of_nil]%elem_of_cons. discriminate. }
  destruct (username_trimmed_password_kept Demo.lib Demo.cfg Demo.amb
              (Demo.credentials "  " "pw1") []
              (VDict [("username", VStr "  "); ("password", VStr "pw1")])
              "  " "" "" eq_refl eq_refl eq_refl eq_refl eq_refl eq_refl)
    as (H4 & _).
  destruct (H4 eq_refl) as [Hr4 _].
  split; [exact Hl1|]. split; [exact Hl2|]. split; [exact Hr3|exact Hr4].
Defined.

(** ** Further properties: the endpoints on arbitrary requests *)

Lemma register_inv lib cfg amb req db resp db' :
  register lib cfg amb req db = Ok (resp, db') ->
  (status resp = 400 /\ db' = db) \/
  (status resp = 201 /\
   exists json u p,
     get_json req = Ok json /\
     field_is json "username" u /\ field_is json "password" p /\
     strip u <> "" /\ p <> "" /\
     first_by_username db (strip u) = None /\
     db' = db ++ [new_user lib amb db (strip u) p]).
Proof.
  unfold register, field_is.
  destruct (get_json req) as [json|e] eqn:Hj; [|discriminate].
  cbn [mbind result_bind].
  destruct (get (or_empty_dict json) "username" (VStr "")) as [vu|e] eqn:Hgu;
    [|discriminate].
  cbn [mbind result_bind].
  destruct vu as [| | | |u| |]; try discriminate.
  cbn [strip_method mbind result_bind].
  destruct (get (or_empty_dict json) "password" (VStr "")) as [vp|e] eqn:Hgp;
    [|discriminate].
  cbn [mbind result_bind].
  destruct (negb (truthy (VStr (strip u))) || negb (truthy vp)) eqn:Hc;
    [intros [= <- <-]; by left|].
  apply orb_false_elim in Hc as [Hu Hp].
  destruct (first_by_username db (strip u)) eqn:Hf;
    [intros [= <- <-]; by left|].
  destruct vp as [| | | |p| |]; try discriminate.
  cbn [py_generate_password_hash mbind result_bind].
  intros [= <- <-]. right. split; [done|].
  exists json, u, p. rewrite !truthy_str, !negb_involutive in *.
  apply String.eqb_neq in Hu, Hp. done.
Qed.

Lemma login_inv lib cfg amb req db resp db' :
  login lib cfg amb req db = Ok (resp, db') ->
  ((status resp = 400 \/ status resp = 401) /\ db' = db) \/
  (exists json u p i usr,
     get_json req = Ok json /\
     field_is json "username" u /\ field_is json "password" p /\
     strip u <> "" /\ p <> "" /\
     first_by_username db (strip u) = Some (i, usr) /\
     check_password_hash lib (password usr) p = true /\
     (resp, db') = login_success lib cfg amb i usr db).
Proof.
  unfold login, field_is.
  destruct (get_json req) as [json|e] eqn:Hj; [|discriminate].
  cbn [mbind result_bind].
  destruct (get (or_empty_dict json) "username" (VStr "")) as [vu|e] eqn:Hgu;
    [|discriminate].
  cbn [mbind result_bind].
  destruct vu as [| | | |u| |]; try discriminate.
  cbn [strip_method mbind result_bind].
  destruct (get (or_empty_dict json) "password" (VStr "")) as [vp|e] eqn:Hgp;
    [|discriminate].
  cbn [mbind result_bind].
  destruct (negb (truthy (VStr (strip u))) || negb (truthy vp)) eqn:Hc;
    [intros [= <- <-]; left; auto|].
  apply orb_false_elim in Hc as [Hu Hp].
  destruct (first_by_username db (strip u)) as [[i usr]|] eqn:Hf;
    [|intros [= <- <-]; left; auto].
  destruct vp as [| | | |p| |]; try discriminate.
  cbn [py_check_password_hash mbind result_bind].
  destruct (check_password_hash lib (password usr) p) eqn:Hk;
    cbn [negb]; [|intros [= <- <-]; left; auto].
  intros [= <- <-]. right.
  exists json, u, p, i, usr. rewrite !truthy_str, !negb_involutive in *.
  apply String.eqb_neq in Hu, Hp. done.
Qed.

(** Whatever the route and the request, the table changes by one
    [table_step]. *)
Lemma serve_table_step lib cfg r amb req db :
  table_step lib amb db (snd (serve lib cfg r amb req db)).
Proof.
  destruct r; [unfold serve, view..|].
  - destruct (register lib cfg amb req db) as [[resp db']|e] eqn:E;
      [|destruct e; constructor].
    apply register_inv in E as [[_ ->]|[_ H]]; [constructor|].
    destruct H as (json & u & p & _ & _ & _ & Hu & _ & Hf & ->).
    cbn [snd]. apply step_register; [done|apply strip_idempotent|].
    by apply first_by_username_None.
  - destruct (login lib cfg amb req db) as [[resp db']|e] eqn:E;
      [|destruct e; constructor].
    apply login_inv in E as [[_ ->]|H]; [constructor|].
    destruct H as (json & u & p & i & usr & _ & _ & _ & _ & _ & Hf & _ & Heq).
    injection Heq as -> ->. cbn [snd].
    apply step_login. by apply first_by_username_Some in Hf as [? _].
  - destruct (serve_get_moon_phase lib cfg amb req db)
      as (resp & db' & -> & [[_ ->]|[_ H]]); [constructor|].
    destruct H as (token & payload & name & i & usr & _ & _ & _ & Hf & -> & _).
    cbn [snd]. apply step_count.
    by apply first_by_username_Some in Hf as [? _].
Qed.

(** ** Further properties: invariants of the table *)

Lemma run_invariant (P : DB -> Prop) lib cfg :
  (forall amb db db', table_step lib amb db db' -> P db -> P db') ->
  forall calls db, P db -> P (run lib cfg calls db).
Proof.
  intros Hstep calls. induction calls as [|c calls IH]; intros db HP; [done|].
  cbn [run foldl]. apply IH. eapply Hstep; [apply serve_table_step|done].
Qed.

Lemma fmap_insert_same {B} (f : User -> B) (g : User -> User)
    (db : DB) (i : nat) usr :
  db !! i = Some usr -> f (g usr) = f usr ->
  f <$> <[i := g usr]> db = f <$> db.
Proof.
  intros Hi Hf. rewrite list_fmap_insert, Hf.
  apply list_insert_id. by rewrite list_lookup_fmap, Hi.
Qed.

Lemma Forall_insert_same (P : User -> Prop) (g : User -> User)
    (db : DB) (i : nat) usr :
  db !! i = Some usr -> (P usr -> P (g usr)) ->
  Forall P db -> Forall P (<[i := g usr]> db).
Proof.
  intros Hi Hg HF. apply Forall_insert; [done|].
  apply Hg. by eapply Forall_lookup_1.
Qed.

(** X1. Usernames stay pairwise distinct, trimmed and non-empty over any
    sequence of requests: the table that starts so (the empty one does)
    stays so. *)
Theorem names_stay_well_formed lib cfg calls db :
  names_well_formed db ->
  names_well_formed (run lib cfg calls db).
Proof.
  revert calls db. apply run_invariant.
  intros amb db db' Hstep [Hnd Hall].
  destruct Hstep as [|name pwd Hne Hs Hfresh|i usr Hi|i usr Hi].
  - done.
  - split.
    + rewrite fmap_app. apply NoDup_app.
      split; [done|]. split; [|apply NoDup_singleton].
      intros x Hx [->|[]%elem_of_nil]%elem_of_cons.
      apply list_elem_of_fmap in Hx as (r & Hr & Hin). by eapply Hfresh.
    + apply Forall_app. split; [done|]. by apply Forall_singleton.
  - split.
    + by rewrite (fmap_insert_same username (set_last_login (clock amb 0))).
    + by apply (Forall_insert_same _ (set_last_login (clock amb 0))).
  - split.
    + by rewrite (fmap_insert_same username
                    (set_calculations (calculations usr + 1))).
    + by apply (Forall_insert_same _ (set_calculations (calculations usr + 1))).
Qed.

Lemma names_stay_well_formed_witness :
  names_well_formed [] /\
  names_well_formed (run Demo.lib Demo.cfg Demo.session []).
Proof.
  assert (H : names_well_formed []).
  { split; [apply NoDup_nil_2 | apply Forall_nil_2]. }
  split; [exact H|].
  exact (names_stay_well_formed Demo.lib Demo.cfg Demo.session [] H).
Defined.

Lemma next_id_above db r : r ∈ db -> id r < next_id db.
Proof.
  unfold next_id. induction db as [|a db IH]; [by intros ?%elem_of_nil|].
  intros [->|Hin]%elem_of_cons; cbn [fmap list_fmap foldr]; [lia|].
  specialize (IH Hin). lia.
Qed.

(** X2. Keys stay pairwise distinct over any sequence of requests: a new
    row gets a key above every key in the table, and no request rewrites a
    key. *)
Theorem keys_stay_distinct lib cfg calls db :
  NoDup (id <$> db) ->
  NoDup (id <$> run lib cfg calls db).
Proof.
  revert calls db. apply (run_invariant (fun db => NoDup (id <$> db))).
  intros amb db db' Hstep Hnd.
  destruct Hstep as [|name pwd Hne Hs Hfresh|i usr Hi|i usr Hi].
  - done.
  - rewrite fmap_app. apply NoDup_app.
    split; [done|]. split; [|apply NoDup_singleton].
    intros x Hx [->|[]%elem_of_nil]%elem_of_cons.
    apply list_elem_of_fmap in Hx as (r & Hr & Hin).
    apply next_id_above in Hin. simpl in Hr. lia.
  - by rewrite (fmap_insert_same id (set_last_login (clock amb 0))).
  - by rewrite (fmap_insert_same id (set_calculations (calculations usr + 1))).
Qed.

Lemma keys_stay_distinct_witness :
  NoDup (id <$> [Demo.alice]) /\
  NoDup (id <$> run Demo.lib Demo.cfg Demo.session [Demo.alice]).
Proof.
  assert (H : NoDup (id <$> [Demo.alice])) by apply NoDup_singleton.
  split; [exact H|].
  exact (keys_stay_distinct Demo.lib Demo.cfg Demo.session [Demo.alice] H).
Defined.

Lemma table_step_row (R : User -> User -> Prop) lib amb db db' i u :
  (forall u, R u u) ->
  (forall u t, R u (set_last_login t u)) ->
  (forall u, R u (set_calculations (calculations u + 1) u)) ->
  table_step lib amb db db' ->
  db !! i = Some u ->
  exists u', db' !! i = Some u' /\ R u u'.
Proof.
  intros Hrefl Hlogin Hcount Hstep Hi.
  destruct Hstep as [|name pwd _ _ _|j usr Hj|j usr Hj].
  - by exists u.
  - exists u. split; [|done].
    rewrite lookup_app_l; [done|by eapply lookup_lt_Some].
  - destruct (decide (j = i)) as [->|Hne].
    + assert (usr = u) as -> by congruence.
      exists (set_last_login (clock amb 0) u).
      rewrite list_lookup_insert_eq by (by eapply lookup_lt_Some). done.
    + exists u. by rewrite list_lookup_insert_ne.
  - destruct (decide (j = i)) as [->|Hne].
    + assert (usr = u) as -> by congruence.
      exists (set_calculations (calculations u + 1) u).
      rewrite list_lookup_insert_eq by (by eapply lookup_lt_Some). done.
    + exists u. by rewrite list_lookup_insert_ne.
Qed.

Lemma run_rows (R : User -> User -> Prop) lib cfg :
  (forall u, R u u) ->
  (forall u v w, R u v -> R v w -> R u w) ->
  (forall u t, R u (set_last_login t u)) ->
  (forall u, R u (set_calculations (calculations u + 1) u)) ->
  forall calls db i u,
    db !! i = Some u ->
    exists u', run lib cfg calls db !! i = Some u' /\ R u u'.
Proof.
  intros Hrefl Htrans Hlogin Hcount calls.
  induction calls as [|c calls IH]; intros db i u Hi; [by exists u|].
  cbn [run foldl].
  destruct (table_step_row R lib (call_ambient c) db _ i u Hrefl Hlogin Hcount
              (serve_table_step lib cfg (call_route c) (call_ambient c)
                 (call_request c) db) Hi) as (u1 & H1 & HR1).
  destruct (IH _ i u1 H1) as (u2 & H2 & HR2).
  exists u2. split; [exact H2|]. by eapply Htrans.
Qed.

(** X3. No request rewrites what registration stored about an account: over
    any sequence of requests a row keeps its password hash and its creation
    time, and a last login, once recorded, is never erased. *)
Theorem rows_keep_credentials lib cfg calls db i u :
  db !! i = Some u ->
  exists u',
    run lib cfg calls db !! i = Some u' /\
    password u' = password u /\
    created_at u' = created_at u /\
    (is_Some (last_login u) -> is_Some (last_login u')).
Proof.
  apply (run_rows (fun u u' => password u' = password u /\
                               created_at u' = created_at u /\
                               (is_Some (last_login u) ->
                                is_Some (last_login u')))).
  - done.
  - intros a b c (H1 & H2 & H3) (H4 & H5 & H6).
    repeat split; [congruence..|auto].
  - intros a t. repeat split. by eexists.
  - done.
Qed.

Lemma rows_keep_credentials_witness :
  exists u',
    run Demo.lib Demo.cfg Demo.session [Demo.alice] !! 0%nat = Some u' /\
    password u' = password Demo.alice /\
    created_at u' = created_at Demo.alice /\
    (is_Some (last_login Demo.alice) -> is_Some (last_login u')).
Proof.
  apply (rows_keep_credentials Demo.lib Demo.cfg Demo.session [Demo.alice]
           0%nat Demo.alice).
  reflexivity.
Defined.

Lemma serve_length lib cfg r amb req db :
  length (snd (serve lib cfg r amb req db)) = length db \/
  (r = Register /\ status (fst (serve lib cfg r amb req db)) = 201 /\
   length (snd (serve lib cfg r amb req db)) = S (length db)).
Proof.
  destruct r; [unfold serve, view..|].
  - destruct (register lib cfg amb req db) as [[resp db']|e] eqn:E;
      [|destruct e; by left].
    apply register_inv in E as [[_ ->]|[Hst H]]; [by left|].
    destruct H as (json & u & p & _ & _ & _ & _ & _ & _ & ->).
    right. cbn [fst snd]. rewrite length_app. cbn [length].
    split; [done|]. split; [done|lia].
  - destruct (login lib cfg amb req db) as [[resp db']|e] eqn:E;
      [|destruct e; by left].
    apply login_inv in E as [[_ ->]|H]; [by left|].
    destruct H as (json & u & p & i & usr & _ & _ & _ & _ & _ & _ & _ & Heq).
    injection Heq as -> ->. left. cbn [snd]. apply length_insert.
  - destruct (serve_get_moon_phase lib cfg amb req db)
      as (resp & db' & -> & [[_ ->]|[_ H]]); [by left|].
    destruct H as (token & payload & name & i & usr & _ & _ & _ & _ & -> & _).
    left. cbn [snd]. apply length_insert.
Qed.

(** X4. The table never loses a row, and it gains at most one row per
    request sent to [/register]: logging in and querying the phase leave
    its length alone. *)
Theorem table_grows_by_registrations lib cfg calls db :
  (length db <= length (run lib cfg calls db)
   <= length db + registrations calls)%nat.
Proof.
  revert db. induction calls as [|c calls IH]; intros db.
  - cbn. lia.
  - cbn [run foldl]. unfold registrations. cbn [List.filter].
    specialize (IH (snd (serve lib cfg (call_route c) (call_ambient c)
                           (call_request c) db))).
    unfold run, registrations in IH.
    destruct (serve_length lib cfg (call_route c) (call_ambient c)
                (call_request c) db) as [Hl|(Hr & _ & Hl)].
    + rewrite Hl in IH.
      destruct (is_registration c); cbn [length]; lia.
    + rewrite Hl in IH.
      assert (is_registration c = true) as ->
        by (unfold is_registration; by rewrite Hr).
      cbn [length]. lia.
Qed.

(** ** Further properties: logging in *)

(** X5. A token is handed out only after the password check: whenever
    [/login] answers 200, the request carried a username and a password as
    strings, the row found under the trimmed username holds a hash that
    [check_password_hash] accepts for the password as sent, and the only
    change to the table is the last login of that row; the answer reports
    the name and the counter of that row and the login instant. *)
Theorem login_success_is_checked lib cfg amb req db resp db' :
  login lib cfg amb req db = Ok (resp, db') ->
  status resp = 200 ->
  exists json u p i usr,
    get_json req = Ok json /\
    field_is json "username" u /\ field_is json "password" p /\
    db !! i = Some usr /\ username usr = strip u /\
    check_password_hash lib (password usr) p = true /\
    db' = <[i := set_last_login (clock amb 0) usr]> db /\
    body_field resp "username" = Some (VStr (username usr)) /\
    body_field resp "calculations" = Some (VInt (calculations usr)) /\
    body_field resp "last_login" = Some (VStr (isoformat lib (clock amb 0))).
Proof.
  intros Hl Hst.
  apply login_inv in Hl as [[[H|H] _]|H]; [lia|lia|].
  destruct H as (json & u & p & i & usr & Hj & Hu & Hp & _ & _ & Hf & Hk & Heq).
  apply first_by_username_Some in Hf as [Hi Hn].
  injection Heq as -> ->.
  exists json, u, p, i, usr. done.
Qed.

Lemma login_success_is_checked_witness :
  exists json u p i usr,
    get_json (Demo.credentials " alice" "pw1") = Ok json /\
    field_is json "username" u /\ field_is json "password" p /\
    [Demo.alice] !! i = Some usr /\ username usr = strip u /\
    check_password_hash Demo.lib (password usr) p = true.
Proof.
  destruct (login_success_is_checked Demo.lib Demo.cfg Demo.amb
              (Demo.credentials " alice" "pw1") [Demo.alice]
              (fst (login_success Demo.lib Demo.cfg Demo.amb 0 Demo.alice
                      [Demo.alice]))
              (snd (login_success Demo.lib Demo.cfg Demo.amb 0 Demo.alice
                      [Demo.alice])))
    as (json & u & p & i & usr & H1 & H2 & H3 & H4 & H5 & H6 & _).
  - reflexivity.
  - reflexivity.
  - exists json, u, p, i, usr. repeat split; assumption.
Defined.

(** X6. An unknown username and a wrong password are refused alike: when
    no row under the trimmed username holds a hash that accepts the
    password, [/login] answers 401 "Invalid credentials" and leaves the
    table as it was, whether or not such a row exists. *)
Theorem login_refusal_is_uniform lib cfg amb req db json u p :
  get_json req = Ok json ->
  field_is json "username" u ->
  field_is json "password" p ->
  strip u <> "" -> p <> "" ->
  (forall i usr, first_by_username db (strip u) = Some (i, usr) ->
                 check_password_hash lib (password usr) p = false) ->
  login lib cfg amb req db = Ok (message 401 "Invalid credentials", db).
Proof.
  intros Hj Hu Hp Hun Hpn Hbad.
  rewrite (login_eq lib cfg amb req db json u p Hj Hu Hp).
  rewrite !eqb_empty_false by done. cbn [orb].
  destruct (first_by_username db (strip u)) as [[i usr]|] eqn:Hf; [|done].
  by rewrite (Hbad i usr).
Qed.

Lemma login_refusal_is_uniform_witness :
  login Demo.lib Demo.cfg Demo.amb (Demo.credentials "alice" "pw2")
    [Demo.alice]
  = Ok (message 401 "Invalid credentials", [Demo.alice]) /\
  login Demo.lib Demo.cfg Demo.amb (Demo.credentials "bob" "pw1")
    [Demo.alice]
  = Ok (message 401 "Invalid credentials", [Demo.alice]).
Proof.
  split.
  - apply (login_refusal_is_uniform Demo.lib Demo.cfg Demo.amb
             (Demo.credentials "alice" "pw2") [Demo.alice]
             (VDict [("username", VStr "alice"); ("password", VStr "pw2")])
             "alice" "pw2"); try reflexivity; try discriminate.
    intros i usr [= <- <-]. reflexivity.
  - apply (login_refusal_is_uniform Demo.lib Demo.cfg Demo.amb
             (Demo.credentials "bob" "pw1") [Demo.alice]
             (VDict [("username", VStr "bob"); ("password", VStr "pw1")])
             "bob" "pw1"); try reflexivity; try discriminate.
Defined.

Lemma first_by_username_snoc db name row :
  (forall r, r ∈ db -> username r <> name) ->
  username row = name ->
  first_by_username (db ++ [row]) name = Some (length db, row).
Proof.
  intros Hfresh Hn. unfold first_by_username.
  rewrite list_find_app_r by (by apply first_by_username_None).
  cbn. rewrite decide_True by done. reflexivity.
Qed.

(** X7. Registering and then logging in works: provided the library's
    checker accepts a password against the hash the library made of it,
    after a successful registration a login with the same password and a
    username that trims to the same name answers 200, for the new account,
    with a counter of zero. *)
Theorem login_after_register lib cfg amb req db resp db'
    json u p amb2 req2 json2 u2 :
  get_json req = Ok json ->
  field_is json "username" u -> field_is json "password" p ->
  register lib cfg amb req db = Ok (resp, db') ->
  status resp = 201 ->
  check_password_hash lib (generate_password_hash lib p (salt amb)) p = true ->
  get_json req2 = Ok json2 ->
  field_is json2 "username" u2 -> field_is json2 "password" p ->
  strip u2 = strip u ->
  exists resp2 db2,
    login lib cfg amb2 req2 db' = Ok (resp2, db2) /\
    status resp2 = 200 /\
    body_field resp2 "username" = Some (VStr (strip u)) /\
    body_field resp2 "calculations" = Some (VInt 0) /\
    length db2 = length db'.
Proof.
  intros Hj Hu Hp Hreg Hst Hlib Hj2 Hu2 Hp2 Hs.
  rewrite (register_eq lib cfg amb req db json u p Hj Hu Hp) in Hreg.
  destruct (String.eqb (strip u) "" || String.eqb p "") eqn:Hc;
    [injection Hreg as <- <-; discriminate Hst|].
  destruct (first_by_username db (strip u)) eqn:Hf;
    [injection Hreg as <- <-; discriminate Hst|].
  injection Hreg as <- <-.
  rewrite (login_eq lib cfg amb2 req2 _ json2 u2 p Hj2 Hu2 Hp2), Hs, Hc.
  rewrite first_by_username_snoc;
    [|by apply first_by_username_None|done].
  cbn [password new_user]. rewrite Hlib.
  eexists _, _. split; [reflexivity|].
  cbn. repeat split. by rewrite length_insert.
Qed.

Lemma login_after_register_witness :
  exists resp2 db2,
    login Demo.lib Demo.cfg Demo.amb (Demo.credentials "alice " "pw1")
      [Demo.alice] = Ok (resp2, db2) /\
    status resp2 = 200.
Proof.
  destruct (login_after_register Demo.lib Demo.cfg Demo.amb
              (Demo.credentials " alice " "pw1") []
              (message 201 "Registration successful") [Demo.alice]
              (VDict [("username", VStr " alice "); ("password", VStr "pw1")])
              " alice " "pw1" Demo.amb (Demo.credentials "alice " "pw1")
              (VDict [("username", VStr "alice "); ("password", VStr "pw1")])
              "alice ")
    as (resp2 & db2 & H1 & H2 & _); try reflexivity.
  exists resp2, db2. split; [exact H1 | exact H2].
Defined.

(** ** Further properties: the protected endpoint behind the guard *)

Lemma serve_authenticated lib cfg amb req db i usr :
  authenticated lib cfg amb req db i usr ->
  view GetMoonPhase lib cfg amb req db
  = guarded db (get_moon_phase (i, usr) lib cfg amb req db).
Proof.
  intros (token & payload & name & Hb & Hd & Hn & Hf).
  unfold view. rewrite token_required_eq, Hb, Hd.
  cbn [mbind result_bind]. unfold payload_getitem_username. rewrite Hn.
  cbn [mbind result_bind]. by rewrite Hf.
Qed.

(** X8. Behind the guard, the date decides the answer: a date that is
    missing or falsy (empty string, null, 0, false) gives 400 "Date is
    required"; a date the ephemeris cannot read gives 400 "Invalid date
    format; use YYYY-MM-DD"; any other date gives 200 with the label of the
    age the ephemeris reports, one of the eight, the rounded illumination,
    the picture drawn from the illumination alone, and the counter of the
    account incremented in the table. *)
Theorem phase_query_outcomes lib cfg amb req db i usr json d :
  authenticated lib cfg amb req db i usr ->
  get_json req = Ok json ->
  get (or_empty_dict json) "date" (VStr "") = Ok d ->
  (truthy d = false ->
   serve lib cfg GetMoonPhase amb req db
   = (message 400 "Date is required", db)) /\
  (truthy d = true -> ephem_Date lib d = None ->
   serve lib cfg GetMoonPhase amb req db
   = (message 400 "Invalid date format; use YYYY-MM-DD", db)) /\
  (forall e_date,
     truthy d = true -> ephem_Date lib d = Some e_date ->
     exists resp,
       serve lib cfg GetMoonPhase amb req db
       = (resp, <[i := set_calculations (calculations usr + 1) usr]> db) /\
       status resp = 200 /\
       body_field resp "phase_name"
       = Some (VStr (get_phase_name_from_age
                       (e_date - previous_new_moon lib e_date)%py)) /\
       In (get_phase_name_from_age (e_date - previous_new_moon lib e_date)%py)
          phase_labels /\
       body_field resp "illumination"
       = Some (VFloat (round2 lib (moon_phase lib e_date))) /\
       body_field resp "moon_image"
       = Some (VStr (savefig_b64 lib (moon_patches (moon_phase lib e_date)))) /\
       body_field resp "calculations" = Some (VInt (calculations usr + 1))).
Proof.
  intros Hauth Hj Hd. unfold serve.
  rewrite (serve_authenticated lib cfg amb req db i usr Hauth).
  unfold get_moon_phase. rewrite Hj. cbn [mbind result_bind].
  rewrite Hd. cbn [mbind result_bind].
  split; [|split].
  - by intros ->.
  - by intros -> ->.
  - intros e_date -> ->. cbn [negb guarded].
    eexists. split; [reflexivity|]. cbn. repeat split.
    rewrite get_phase_name_bucket. apply phase_label_in, bucket_range.
Qed.

Lemma phase_query_outcomes_witness :
  authenticated Demo.lib Demo.cfg Demo.amb
    (Demo.phase_query (Some "Bearer jwt.alice") "") [Demo.alice] 0 Demo.alice /\
  serve Demo.lib Demo.cfg GetMoonPhase Demo.amb
    (Demo.phase_query (Some "Bearer jwt.alice") "") [Demo.alice]
  = (message 400 "Date is required", [Demo.alice]).
Proof.
  assert (H : authenticated Demo.lib Demo.cfg Demo.amb
                (Demo.phase_query (Some "Bearer jwt.alice") "") [Demo.alice]
                0 Demo.alice).
  { exists "jwt.alice",
      {| payload_username := Some "alice";
         payload_exp := Some (clock Demo.amb 0 + hours_24) |}, "alice".
    repeat split. }
  split; [exact H|].
  apply (phase_query_outcomes Demo.lib Demo.cfg Demo.amb
           (Demo.phase_query (Some "Bearer jwt.alice") "") [Demo.alice]
           0%nat Demo.alice (VDict [("date", VStr "")]) (VStr "") H);
    reflexivity.
Defined.

(** X9. The guard answers for the handler's failures too: with a token
    that passes, a body that is a JSON value other than an object and not
    falsy (a non-empty array, a number, a string), or a body Flask cannot
    read, is answered 401 "Invalid token", not 400, and the table is left
    as it was. *)
Theorem guard_answers_handler_failures lib cfg amb req db i usr :
  authenticated lib cfg amb req db i usr ->
  (forall json,
     get_json req = Ok json -> truthy json = true ->
     (forall dict, json <> VDict dict) ->
     serve lib cfg GetMoonPhase amb req db
     = (message 401 "Invalid token", db)) /\
  (forall e,
     get_json req = Raise e -> e <> ExpiredSignatureError ->
     serve lib cfg GetMoonPhase amb req db
     = (message 401 "Invalid token", db)).
Proof.
  intros Hauth. unfold serve.
  rewrite (serve_authenticated lib cfg amb req db i usr Hauth).
  unfold get_moon_phase. split.
  - intros json -> Ht Hnd. cbn [mbind result_bind].
    unfold or_empty_dict. rewrite Ht.
    destruct json; try reflexivity. by destruct (Hnd d).
  - intros e -> He. cbn [mbind result_bind]. by destruct e.
Qed.

Lemma guard_answers_handler_failures_witness :
  serve Demo.lib Demo.cfg GetMoonPhase Demo.amb
    {| authorization := Some "Bearer jwt.alice";
       get_json := Ok (VList [VStr "2024-01-11"]) |} [Demo.alice]
  = (message 401 "Invalid token", [Demo.alice]).
Proof.
  assert (H : authenticated Demo.lib Demo.cfg Demo.amb
                {| authorization := Some "Bearer jwt.alice";
                   get_json := Ok (VList [VStr "2024-01-11"]) |}
                [Demo.alice] 0 Demo.alice).
  { exists "jwt.alice",
      {| payload_username := Some "alice";
         payload_exp := Some (clock Demo.amb 0 + hours_24) |}, "alice".
    repeat split. }
  apply (proj1 (guard_answers_handler_failures Demo.lib Demo.cfg Demo.amb _
                  [Demo.alice] 0%nat Demo.alice H)
           (VList [VStr "2024-01-11"])).
  - reflexivity.
  - reflexivity.
  - discriminate.
Defined.

(** ** Further properties: bodies that are not what the endpoints expect *)

(** X10. What [/register] and [/login] make of fields of other JSON types:
    with a usable username, a password that is falsy, whatever its type
    (null, false, 0, an empty array or object), counts as missing and gives
    400; a username that is there but is not a string, and a body that is
    neither an object nor falsy, make the view raise [AttributeError]
    instead of answering 400, and nothing is stored. *)
Theorem credentials_of_other_types lib cfg amb req db json :
  get_json req = Ok json ->
  (forall u pwd,
     field_is json "username" u -> strip u <> "" ->
     get (or_empty_dict json) "password" (VStr "") = Ok pwd ->
     truthy pwd = false ->
     register lib cfg amb req db
     = Ok (message 400 "Missing username or password", db) /\
     login lib cfg amb req db
     = Ok (message 400 "Missing username or password", db)) /\
  (forall v,
     get (or_empty_dict json) "username" (VStr "") = Ok v ->
     (forall u, v <> VStr u) ->
     register lib cfg amb req db = Raise AttributeError /\
     login lib cfg amb req db = Raise AttributeError /\
     snd (serve lib cfg Register amb req db) = db /\
     snd (serve lib cfg Login amb req db) = db) /\
  (truthy json = true -> (forall dict, json <> VDict dict) ->
   register lib cfg amb req db = Raise AttributeError /\
   login lib cfg amb req db = Raise AttributeError /\
   snd (serve lib cfg Register amb req db) = db /\
   snd (serve lib cfg Login amb req db) = db).
Proof.
  intros Hj. unfold serve, view, register, login, field_is. rewrite Hj.
  cbn [mbind result_bind].
  split; [|split].
  - intros u pwd -> Hu -> Hp. cbn [strip_method mbind result_bind].
    rewrite Hp, orb_true_r. done.
  - intros v -> Hv. cbn [mbind result_bind].
    destruct v; cbn [strip_method mbind result_bind]; try done.
    by destruct (Hv s).
  - intros Ht Hnd. unfold or_empty_dict. rewrite Ht.
    destruct json; cbn [get mbind result_bind]; try done.
    by destruct (Hnd d).
Qed.

Lemma credentials_of_other_types_witness :
  register Demo.lib Demo.cfg Demo.amb
    {| authorization := None;
       get_json := Ok (VDict [("username", VInt 7); ("password", VStr "pw")]) |}
    [Demo.alice]
  = Raise AttributeError.
Proof.
  apply (proj1 (proj2 (credentials_of_other_types Demo.lib Demo.cfg Demo.amb
                         {| authorization := None;
                            get_json := Ok (VDict [("username", VInt 7);
                                                   ("password", VStr "pw")]) |}
                         [Demo.alice]
                         (VDict [("username", VInt 7); ("password", VStr "pw")])
                         eq_refl)) (VInt 7)).
  - reflexivity.
  - discriminate.
Defined.

(** ** Further properties: reading the Authorization header *)

Lemma append_cons x (a b : string) :
  (String x a ++ b)%string = String x (a ++ b)%string.
Proof. reflexivity. Qed.

Lemma append_assoc (a b c : string) : ((a ++ b) ++ c = a ++ (b ++ c))%string.
Proof.
  induction a as [|x a IH]; [done|]. by rewrite !append_cons, IH.
Qed.

Lemma append_empty_r (a : string) : (a ++ "")%string = a.
Proof.
  induction a as [|x a IH]; [done|]. by rewrite append_cons, IH.
Qed.

Lemma no_space_append a b :
  no_space (a ++ b) = no_space a && no_space b.
Proof.
  induction a as [|x a IH]; [done|].
  rewrite append_cons. cbn [no_space]. by rewrite IH, andb_assoc.
Qed.

Lemma split_from_all_space word s :
  all_space s = true ->
  split_from word s = match word with EmptyString => [] | _ => [word] end.
Proof.
  revert word. induction s as [|c s IH]; intros word; cbn [all_space split_from];
    [done|].
  intros [-> Hs]%andb_prop. rewrite (IH EmptyString Hs).
  by destruct word.
Qed.

Lemma split_from_no_space word t rest :
  no_space t = true ->
  split_from word (t ++ rest) = split_from (word ++ t) rest.
Proof.
  revert word. induction t as [|c t IH]; intros word.
  - intros _. by rewrite append_empty_r.
  - cbn [no_space]. intros [Hc Ht]%andb_prop. apply negb_true_iff in Hc.
    rewrite append_cons. cbn [split_from]. rewrite Hc.
    rewrite (IH _ Ht), append_assoc. done.
Qed.

Lemma split_from_trailing word s post :
  all_space post = true ->
  split_from word (s ++ post) = split_from word s.
Proof.
  intros Hp. revert word. induction s as [|c s IH]; intros word.
  - by apply split_from_all_space.
  - rewrite append_cons. cbn [split_from].
    destruct (isspace c); [|apply IH]. by rewrite !IH.
Qed.

Lemma split_leading pre s :
  all_space pre = true -> split (pre ++ s) = split s.
Proof.
  unfold split. induction pre as [|c pre IH]; [done|].
  cbn [all_space]. intros [Hc Hp]%andb_prop.
  rewrite append_cons. cbn [split_from]. rewrite Hc. auto.
Qed.

Lemma split_from_parts s : forall word,
  no_space word = true ->
  Forall (fun part => part <> "" /\ no_space part = true) (split_from word s).
Proof.
  induction s as [|c s IH]; intros word Hw; cbn [split_from].
  - destruct word; [constructor|]. by repeat constructor.
  - destruct (isspace c) eqn:Hc.
    + destruct word; [by apply IH|].
      constructor; [done|]. by apply IH.
    + apply IH. rewrite no_space_append, Hw. cbn [no_space]. by rewrite Hc.
Qed.

Lemma isspace_lower_char c : isspace c = true -> lower_char c = c.
Proof.
  destruct c as [[] [] [] [] [] [] [] []]; vm_compute; congruence.
Qed.

Lemma lower_bearer_no_space scheme :
  lower scheme = "bearer" -> scheme <> "" /\ no_space scheme = true.
Proof.
  intros H. split; [by intros ->|].
  assert (Hb : no_space (lower scheme) = true) by (by rewrite H).
  clear H. induction scheme as [|c s IH]; [done|].
  cbn [lower no_space] in *. apply andb_prop in Hb as [Hc Hs].
  rewrite (IH Hs), andb_true_r.
  destruct (isspace c) eqn:E; [|done].
  by rewrite (isspace_lower_char c E), E in Hc.
Qed.

Lemma bearer_token_padded pre h post :
  all_space pre = true -> all_space post = true ->
  bearer_token (Some (pre ++ h ++ post)%string) = bearer_token (Some h).
Proof.
  intros Hpre Hpost. unfold bearer_token. cbn [from_option id Datatypes.id].
  rewrite split_leading by done. unfold split.
  by rewrite split_from_trailing.
Qed.

Lemma bearer_token_accepts scheme sep token :
  lower scheme = "bearer" ->
  sep <> "" -> all_space sep = true ->
  token <> "" -> no_space token = true ->
  bearer_token (Some (scheme ++ sep ++ token)%string) = Some token.
Proof.
  intros Hl Hsep Hs Ht Hn.
  destruct (lower_bearer_no_space scheme Hl) as [Hne Hsn].
  unfold bearer_token, split. cbn [from_option id Datatypes.id].
  rewrite split_from_no_space by done.
  change ("" ++ scheme)%string with scheme.
  destruct sep as [|c sep]; [done|].
  rewrite append_cons. cbn [split_from].
  cbn [all_space] in Hs. apply andb_prop in Hs as [Hc Hs]. rewrite Hc.
  destruct scheme as [|a scheme]; [done|].
  fold (split (sep ++ token)). rewrite split_leading by done.
  unfold split.
  rewrite <- (append_empty_r token) at 1.
  rewrite split_from_no_space by done.
  change ("" ++ token)%string with token. cbn [split_from].
  destruct token; [done|]. by rewrite Hl.
Qed.

Lemma bearer_token_clean header token :
  bearer_token header = Some token -> token <> "" /\ no_space token = true.
Proof.
  unfold bearer_token.
  pose proof (split_from_parts (default "" header) "" eq_refl) as Hparts.
  fold (split (default "" header)) in Hparts.
  destruct (split (default "" header)) as [|a [|b [|c l]]]; try done.
  destruct (String.eqb (lower a) "bearer"); [|done].
  intros [= <-].
  apply Forall_cons in Hparts as [_ Hparts].
  by apply Forall_cons in Hparts as [? _].
Qed.

(** The protected endpoint reads nothing of the header but the token. *)
Lemma serve_same_token lib cfg amb req req' db :
  bearer_token (authorization req) = bearer_token (authorization req') ->
  get_json req = get_json req' ->
  serve lib cfg GetMoonPhase amb req db
  = serve lib cfg GetMoonPhase amb req' db.
Proof.
  intros Hb Hj. unfold serve, view. rewrite !token_required_eq, Hb.
  unfold get_moon_phase. by rewrite Hj.
Qed.

(** X11. How the guard reads the header.  Whitespace before and after the
    header does not count.  Any scheme that is [bearer] up to letter case,
    followed by any non-empty run of whitespace and a non-empty token
    without whitespace, is answered as [Bearer], one space and that token.
    And every request is either refused with 401 "Invalid or missing
    Authorization header", the table as it was, or answered as the same
    request with the header [Bearer], one space and a token that is
    non-empty and without whitespace. *)
Theorem header_reading lib cfg amb req db :
  (forall pre h post,
     all_space pre = true -> all_space post = true ->
     serve lib cfg GetMoonPhase amb (with_header (pre ++ h ++ post) req) db
     = serve lib cfg GetMoonPhase amb (with_header h req) db) /\
  (forall scheme sep token,
     lower scheme = "bearer" ->
     sep <> "" -> all_space sep = true ->
     token <> "" -> no_space token = true ->
     serve lib cfg GetMoonPhase amb
       (with_header (scheme ++ sep ++ token) req) db
     = serve lib cfg GetMoonPhase amb (with_header ("Bearer " ++ token) req) db) /\
  (serve lib cfg GetMoonPhase amb req db
   = (message 401 "Invalid or missing Authorization header", db) \/
   exists token,
     token <> "" /\ no_space token = true /\
     serve lib cfg GetMoonPhase amb req db
     = serve lib cfg GetMoonPhase amb (with_header ("Bearer " ++ token) req) db).
Proof.
  split; [|split].
  - intros pre h post Hpre Hpost. apply serve_same_token; [|done].
    by apply bearer_token_padded.
  - intros scheme sep token Hl Hsep Hs Ht Hn.
    apply serve_same_token; [|done]. cbn [with_header authorization].
    rewrite (bearer_token_accepts scheme sep token) by done.
    symmetry. by apply (bearer_token_accepts "Bearer" " " token).
  - destruct (bearer_token (authorization req)) as [token|] eqn:Hb.
    + right. exists token.
      destruct (bearer_token_clean _ _ Hb) as [Ht Hn].
      split; [done|]. split; [done|].
      apply serve_same_token; [|done]. rewrite Hb.
      symmetry. by apply (bearer_token_accepts "Bearer" " " token).
    + left. unfold serve, view. by rewrite token_required_eq, Hb.
Qed.

Lemma header_reading_witness :
  serve Demo.lib Demo.cfg GetMoonPhase Demo.amb
    (with_header "  BeArEr    jwt.alice " (Demo.phase_query None "2024-01-11"))
    [Demo.alice]
  = serve Demo.lib Demo.cfg GetMoonPhase Demo.amb
      (with_header "Bearer jwt.alice" (Demo.phase_query None "2024-01-11"))
      [Demo.alice].
Proof.
  destruct (header_reading Demo.lib Demo.cfg Demo.amb
              (Demo.phase_query None "2024-01-11") [Demo.alice]) as (Hws & Hok & _).
  etrans; [apply (Hws "  " "BeArEr    jwt.alice" " "); reflexivity|].
  apply (Hok "BeArEr" "    " "jwt.alice"); (reflexivity || discriminate).
Defined.

(** ** Further properties: from [/login] to the protected endpoint *)

Lemma first_by_username_insert db name i usr usr' :
  first_by_username db name = Some (i, usr) ->
  username usr' = username usr ->
  first_by_username (<[i := usr']> db) name = Some (i, usr').
Proof.
  unfold first_by_username. intros (Hi & Hn & Hbefore)%list_find_Some Hu.
  apply list_find_Some. split; [|split].
  - apply list_lookup_insert_eq. by eapply lookup_lt_Some.
  - congruence.
  - intros j y Hj Hlt. rewrite list_lookup_insert_ne in Hj by lia.
    by eapply Hbefore.
Qed.

(** X12. The token of a login opens the protected endpoint for the account
    that logged in.  Provided the token the library built is non-empty and
    without whitespace, and the library, at the time of the second request
    and under the same key, decodes it to a payload with the username the
    login reported: a request with the header [Bearer], one space and the
    token passes the guard as the row that logged in, and with a date the
    ephemeris reads it is answered 200 with the counter the login reported
    plus one. *)
Theorem login_token_is_accepted lib cfg amb amb' req req' db resp db'
    token payload name :
  login lib cfg amb req db = Ok (resp, db') ->
  status resp = 200 ->
  body_field resp "token" = Some (VStr token) ->
  body_field resp "username" = Some (VStr name) ->
  token <> "" -> no_space token = true ->
  jwt_decode lib token (SECRET_KEY cfg) ["HS256"] (clock amb' 0) = Ok payload ->
  payload_username payload = Some name ->
  authorization req' = Some ("Bearer " ++ token)%string ->
  exists i usr,
    db' !! i = Some usr /\
    authenticated lib cfg amb' req' db' i usr /\
    body_field resp "calculations" = Some (VInt (calculations usr)) /\
    forall json d e_date,
      get_json req' = Ok json ->
      get (or_empty_dict json) "date" (VStr "") = Ok d ->
      truthy d = true -> ephem_Date lib d = Some e_date ->
      exists resp',
        serve lib cfg GetMoonPhase amb' req' db'
        = (resp', <[i := set_calculations (calculations usr + 1) usr]> db') /\
        status resp' = 200 /\
        body_field resp' "calculations" = Some (VInt (calculations usr + 1)).
Proof.
  intros Hl Hst Htok Hname Hne Hns Hdec Hpn Hauth.
  apply login_inv in Hl as [[[H|H] _]|H]; [lia|lia|].
  destruct H as (json & u & p & i & usr & _ & _ & _ & _ & _ & Hf & _ & Heq).
  injection Heq as -> ->.
  injection Htok as <-. injection Hname as <-.
  destruct (first_by_username_Some _ _ _ _ Hf) as [Hi Hu].
  set (usr' := set_last_login (clock amb 0) usr).
  assert (Ha : authenticated lib cfg amb' req' (<[i := usr']> db) i usr').
  { eexists _, payload, _. rewrite Hauth. split; [|split; [|split]].
    - by apply (bearer_token_accepts "Bearer" " ").
    - exact Hdec.
    - exact Hpn.
    - apply (first_by_username_insert db _ i usr usr'); [|done].
      rewrite <- Hf. f_equal. by rewrite Hu. }
  exists i, usr'. split; [|split; [exact Ha|split; [done|]]].
  - apply list_lookup_insert_eq. by eapply lookup_lt_Some.
  - intros json' d e_date Hj Hd Ht He. unfold serve.
    rewrite (serve_authenticated _ _ _ _ _ _ _ Ha).
    unfold get_moon_phase. rewrite Hj. cbn [mbind result_bind].
    rewrite Hd. cbn [mbind result_bind]. rewrite Ht, He.
    cbn [negb guarded]. eexists. split; [reflexivity|]. done.
Qed.

Lemma login_token_is_accepted_witness :
  exists i usr,
    snd (login_success Demo.lib Demo.cfg Demo.amb 0 Demo.alice [Demo.alice])
      !! i = Some usr /\
    authenticated Demo.lib Demo.cfg Demo.amb
      (Demo.phase_query (Some "Bearer jwt.alice") "2024-01-11")
      (snd (login_success Demo.lib Demo.cfg Demo.amb 0 Demo.alice [Demo.alice]))
      i usr.
Proof.
  destruct (login_token_is_accepted Demo.lib Demo.cfg Demo.amb Demo.amb
              (Demo.credentials "alice" "pw1")
              (Demo.phase_query (Some "Bearer jwt.alice") "2024-01-11")
              [Demo.alice]
              (fst (login_success Demo.lib Demo.cfg Demo.amb 0 Demo.alice
                      [Demo.alice]))
              (snd (login_success Demo.lib Demo.cfg Demo.amb 0 Demo.alice
                      [Demo.alice]))
              "jwt.alice"
              {| payload_username := Some "alice";
                 payload_exp := Some (clock Demo.amb 0 + hours_24) |}
              "alice")
    as (i & usr & H1 & H2 & _); try reflexivity; try discriminate.
  by exists i, usr.
Defined.

(** ** Further properties: the classifier on all floats *)

Lemma boundary_finite k :
  1 <= k <= 7 -> exists mb eb, boundary k = S754_finite false mb eb.
Proof.
  intros Hk.
  destruct boundaries_eq as (_ & B1 & B2 & B3 & B4 & B5 & B6 & B7 & _).
  assert (Hc : k = 1 \/ k = 2 \/ k = 3 \/ k = 4 \/ k = 5 \/ k = 6 \/ k = 7)
    by lia.
  destruct Hc as [->|[->|[->|[->|[->|[->| ->]]]]]]; eauto.
Qed.

Ltac split_pruned :=
  repeat (match goal with
          | |- context [Z.ltb ?a ?b] => destruct (Z.ltb_spec a b)
          | |- context [Z.eqb ?a ?b] => destruct (Z.eqb_spec a b)
          end; cbv beta iota; try lia).

(** The label index is below [k] exactly when the age compares below the
    [k]-th boundary. *)
Lemma bucket_threshold x k :
  1 <= k <= 7 -> (x <? boundary k)%py = true <-> bucket x < k.
Proof.
  intros Hk.
  destruct boundaries_eq as (_ & B1 & B2 & B3 & B4 & B5 & B6 & B7 & _).
  assert (Hc : k = 1 \/ k = 2 \/ k = 3 \/ k = 4 \/ k = 5 \/ k = 6 \/ k = 7)
    by lia.
  clear Hk.
  destruct Hc as [->|[->|[->|[->|[->|[->| ->]]]]]];
    match goal with
    | |- (_ <? boundary ?j)%py = true <-> _ =>
        match goal with
        | B : boundary j = _ |- _ => rewrite B
        end
    end; rewrite ltb_finite_below; clear.
  all: destruct x as [s|[]| |[] m e].
  all: try (simpl; split; [reflexivity|done]).
  all: try (simpl; split; [done|discriminate]).
  all: unfold below, bucket; cbv beta iota; split_pruned.
Qed.

Lemma below_leb x y mb eb :
  (x <=? y)%py = true -> below y mb eb -> below x mb eb.
Proof.
  destruct x as [s|[]| |[] m e]; try done.
  - by destruct y as [?|[]| |[] ? ?].
  - intros H%leb_finite_at_least.
    destruct y as [?|[]| |[] my ey]; simpl in *; try done. lia.
Qed.

Lemma bucket_monotone x y :
  (x <=? y)%py = true -> bucket x <= bucket y.
Proof.
  intros Hle.
  pose proof (bucket_range x) as Hx. pose proof (bucket_range y) as Hy.
  destruct (Z_le_gt_dec (bucket x) (bucket y)) as [|Hgt]; [done|].
  exfalso.
  assert (Hk : 1 <= bucket x <= 7) by lia.
  destruct (boundary_finite _ Hk) as (mb & eb & Hb).
  assert (Hyb : (y <? boundary (bucket x))%py = true)
    by (apply bucket_threshold; lia).
  assert (Hxb : (x <? boundary (bucket x))%py = true).
  { rewrite Hb in *. apply ltb_finite_below.
    apply ltb_finite_below in Hyb. by eapply below_leb. }
  apply bucket_threshold in Hxb; lia.
Qed.

Lemma phase_label_lookup k :
  0 <= k <= 7 -> phase_labels !! Z.to_nat k = Some (phase_label k).
Proof.
  intros Hk.
  assert (Hc : k = 0 \/ k = 1 \/ k = 2 \/ k = 3 \/ k = 4 \/ k = 5
               \/ k = 6 \/ k = 7) by lia.
  destruct Hc as [->|[->|[->|[->|[->|[->|[->| ->]]]]]]]; reflexivity.
Qed.

Lemma phase_label_last k :
  0 <= k <= 7 -> phase_label k = "Waning Crescent" <-> k = 7.
Proof.
  intros Hk.
  assert (Hc : k = 0 \/ k = 1 \/ k = 2 \/ k = 3 \/ k = 4 \/ k = 5
               \/ k = 6 \/ k = 7) by lia.
  destruct Hc as [->|[->|[->|[->|[->|[->|[->| ->]]]]]]]; by vm_compute.
Qed.

(** X13. The classifier is monotone on all floats: the eight labels are
    pairwise distinct, and when [x <= y] the label of [x] comes no later
    in the list of labels than the label of [y]. *)
Theorem phase_name_is_monotone x y :
  (x <=? y)%py = true ->
  NoDup phase_labels /\
  exists i j : nat,
    phase_labels !! i = Some (get_phase_name_from_age x) /\
    phase_labels !! j = Some (get_phase_name_from_age y) /\
    (i <= j)%nat.
Proof.
  intros Hle. split.
  - apply (bool_decide_unpack _). by vm_compute.
  - rewrite !get_phase_name_bucket.
    pose proof (bucket_range x). pose proof (bucket_range y).
    pose proof (bucket_monotone x y Hle).
    exists (Z.to_nat (bucket x)), (Z.to_nat (bucket y)).
    rewrite !phase_label_lookup by done. repeat split. lia.
Qed.

Lemma phase_name_is_monotone_witness :
  exists i j : nat,
    phase_labels !! i = Some (get_phase_name_from_age (int 3)) /\
    phase_labels !! j = Some (get_phase_name_from_age (int 20)) /\
    (i <= j)%nat.
Proof.
  apply (phase_name_is_monotone (int 3) (int 20)). reflexivity.
Defined.

(** X14. The last label catches everything from the seventh boundary on:
    the classifier answers "Waning Crescent" exactly when the age does not
    compare below [29.530588853 * 7 / 8].  So it does for every age from a
    whole month on, for plus infinity, and for a NaN, which compares below
    nothing. *)
Theorem last_label_catches_the_rest :
  (forall x,
     get_phase_name_from_age x = "Waning Crescent" <->
     (x <? SYNODIC_MONTH * int 7 / int 8)%py = false) /\
  (forall x, (SYNODIC_MONTH <=? x)%py = true ->
             get_phase_name_from_age x = "Waning Crescent") /\
  get_phase_name_from_age (S754_infinity false) = "Waning Crescent" /\
  get_phase_name_from_age S754_nan = "Waning Crescent" /\
  (forall b, (S754_nan <? b)%py = false).
Proof.
  assert (Hiff : forall x,
     get_phase_name_from_age x = "Waning Crescent" <->
     (x <? SYNODIC_MONTH * int 7 / int 8)%py = false).
  { intros x. rewrite get_phase_name_bucket.
    rewrite (phase_label_last _ (bucket_range x)).
    destruct code_boundaries as (_ & _ & _ & _ & _ & _ & ->).
    destruct boundaries_eq as (_ & _ & _ & _ & _ & _ & _ & B7 & _).
    rewrite <- B7.
    clear B7.
    pose proof (bucket_threshold x 7 ltac:(lia)) as Ht.
    pose proof (bucket_range x).
    destruct (x <? boundary 7)%py; split; intros H'.
    - assert (bucket x < 7) by (by apply Ht). lia.
    - discriminate H'.
    - reflexivity.
    - assert (~ bucket x < 7) by (intros Hlt%Ht; discriminate Hlt). lia. }
  split; [exact Hiff|]. split; [|split; [|split]].
  - intros x Hx. apply Hiff. clear Hiff.
    destruct code_boundaries as (_ & _ & _ & _ & _ & _ & ->).
    rewrite SYNODIC_MONTH_eq in Hx. apply leb_finite_at_least in Hx.
    apply ltb_finite_not_below.
    destruct x as [?|[]| |[] m e]; unfold at_least, below in *;
      [done | done | congruence | done | done | lia].
  - by rewrite get_phase_name_bucket.
  - by rewrite get_phase_name_bucket.
  - by intros [?|[]| |[] ? ?].
Qed.

Lemma last_label_catches_the_rest_witness :
  get_phase_name_from_age (int 40) = "Waning Crescent".
Proof.
  apply (proj1 (proj2 last_label_catches_the_rest) (int 40)).
  vm_compute. reflexivity.
Defined.

(** ** Rounding keeps a result within representable bounds *)

Lemma pow2_pos n : 0 <= n -> 0 < 2 ^ n.
Proof. intros. apply Z.pow_pos_nonneg; lia. Qed.

Lemma pow2_add a b : 0 <= a -> 0 <= b -> 2 ^ (a + b) = 2 ^ a * 2 ^ b.
Proof. intros. by apply Z.pow_add_r. Qed.

Lemma pow2_split a b : 0 <= b <= a -> 2 ^ a = 2 ^ (a - b) * 2 ^ b.
Proof.
  intros. rewrite <- pow2_add by lia. f_equal. lia.
Qed.

(** Shifting an exact record whose mantissa is a multiple of the power
    shifted out leaves an exact record. *)
Lemma iter_shr_1_exact p : forall k,
  0 <= k ->
  SpecFloat.iter_pos shr_1 p
    {| shr_m := k * 2 ^ Z.pos p; shr_r := false; shr_s := false |}
  = {| shr_m := k; shr_r := false; shr_s := false |}.
Proof.
  assert (H1 : forall k, 0 <= k ->
            shr_1 {| shr_m := 2 * k; shr_r := false; shr_s := false |}
            = {| shr_m := k; shr_r := false; shr_s := false |}).
  { intros [|k|k] Hk; try lia; reflexivity. }
  induction p as [p IH|p IH|]; intros k Hk; cbn [SpecFloat.iter_pos].
  - rewrite pow2_xI.
    replace (k * (2 * (2 ^ Z.pos p * 2 ^ Z.pos p)))
      with (2 * (k * 2 ^ Z.pos p * 2 ^ Z.pos p)) by ring.
    pose proof (pow2_pos (Z.pos p) ltac:(lia)).
    rewrite H1 by nia. rewrite IH by nia. by rewrite IH.
  - rewrite pow2_xO.
    replace (k * (2 ^ Z.pos p * 2 ^ Z.pos p))
      with (k * 2 ^ Z.pos p * 2 ^ Z.pos p) by ring.
    pose proof (pow2_pos (Z.pos p) ltac:(lia)).
    rewrite IH by nia. by rewrite IH.
  - change (2 ^ 1) with 2. rewrite Z.mul_comm. by apply H1.
Qed.

Lemma shr_fexp_exact m e k :
  0 <= k -> m = k * 2 ^ shift_amount m e ->
  loc_of_shr_record (fst (shr_fexp F64.prec F64.emax m e loc_Exact))
  = loc_Exact.
Proof.
  intros Hk Hm. unfold shr_fexp, shr. unfold shift_amount in Hm.
  cbn [shr_record_of_loc].
  destruct (fexp F64.prec F64.emax (Zdigits2 m + e) - e)
    as [|p|p] eqn:E; try reflexivity.
  rewrite Z.max_r in Hm by lia.
  cbn [fst]. rewrite Hm. by rewrite iter_shr_1_exact.
Qed.

(** The first step of rounding, against an upper bound on a coarser
    grid: the shifted mantissa stays below the bound. *)
Lemma shift_upper m e mb eb :
  0 <= m -> 0 <= mb < 2 ^ 53 -> -1074 <= eb ->
  e <= eb -> m <= mb * 2 ^ (eb - e) ->
  let n := shift_amount m e in
  0 <= n /\ e + n <= eb /\ m / 2 ^ n <= mb * 2 ^ (eb - (e + n)).
Proof.
  intros Hm Hmb Heb He Hle n.
  assert (Hn0 : 0 <= n) by (unfold n, shift_amount; lia).
  assert (Hp : 0 < 2 ^ (eb - e)) by (apply pow2_pos; lia).
  assert (Hd : Zdigits2 m <= 53 + (eb - e)).
  { apply Zdigits2_le_of_lt_pow; [lia|]. split; [lia|].
    rewrite pow2_add by lia. nia. }
  assert (Hn : e + n <= eb).
  { unfold n, shift_amount, fexp, emin, F64.prec, F64.emax. lia. }
  split; [done|]. split; [done|].
  assert (H2 : 0 < 2 ^ n) by (by apply pow2_pos).
  rewrite (pow2_split (eb - e) n) in Hle by lia.
  replace (eb - e - n) with (eb - (e + n)) in Hle by lia.
  apply Z.div_le_upper_bound; [done|]. nia.
Qed.

(** The same step against a lower bound. *)
Lemma shift_lower m e ma ea :
  0 <= m -> 2 ^ 52 <= ma < 2 ^ 53 -> -1074 <= ea ->
  dyadic_le ma ea m e ->
  let n := shift_amount m e in
  dyadic_le ma ea (m / 2 ^ n) (e + n).
Proof.
  intros Hm Hma Hea Hle n.
  assert (Hn0 : 0 <= n) by (unfold n, shift_amount; lia).
  destruct (Z.eq_dec n 0) as [E0|Hnz].
  { rewrite E0, Z.div_1_r, Z.add_0_r. done. }
  assert (H2 : 0 < 2 ^ n) by (by apply pow2_pos).
  destruct (Z_le_gt_dec (e + n) ea) as [Hfine|Hcoarse].
  - (* the bound is still on the grid *)
    left. split; [done|].
    destruct Hle as [[He Hle]|[He Hle]]; [|lia].
    rewrite (pow2_split (ea - e) n) in Hle by lia.
    replace (ea - e - n) with (ea - (e + n)) in Hle by lia.
    apply Z.div_le_lower_bound; [done|]. nia.
  - (* the result is a full mantissa above the exponent of the bound *)
    right. split; [lia|].
    assert (Hpos : 0 < m).
    { destruct Hle as [[He Hle]|[He Hle]].
      - pose proof (pow2_pos (ea - e) ltac:(lia)). nia.
      - pose proof (pow2_pos (e - ea) ltac:(lia)). nia. }
    pose proof (Zdigits2_lower m Hpos) as Hlow.
    assert (Hdn : n = Zdigits2 m - 53).
    { unfold n, shift_amount, fexp, emin, F64.prec, F64.emax in *. lia. }
    assert (H52 : 2 ^ 52 <= m / 2 ^ n).
    { apply Z.div_le_lower_bound; [done|].
      rewrite <- pow2_add by lia.
      replace (n + 52) with (Zdigits2 m - 1) by lia. done. }
    assert (Hma' : ma < 2 ^ 53 -> ma <= m / 2 ^ n * 2 ^ (e + n - ea)).
    { intros Hlt.
      assert (2 <= 2 ^ (e + n - ea)).
      { change 2 with (2 ^ 1) at 1. apply Z.pow_le_mono_r; lia. }
      change (2 ^ 53) with (2 * 2 ^ 52) in Hlt. nia. }
    apply Hma'. lia.
Qed.

(** Rounding to nearest does not cross a representable upper bound:
    a value [m * 2^e] (or, with an inexact location, strictly between
    that and the next point of the grid) that is at most [mb * 2^eb]
    rounds to a float that is at most [mb * 2^eb]. *)
Lemma round_aux_upper s m e l mb eb :
  0 <= m -> 0 <= mb < 2 ^ 53 -> -1074 <= eb <= 971 ->
  e <= eb -> m <= mb * 2 ^ (eb - e) ->
  (l <> loc_Exact -> m < mb * 2 ^ (eb - e)) ->
  upper_bounded (binary_round_aux F64.prec F64.emax s m e l) s mb eb.
Proof.
  intros Hm Hmb Heb He Hle Hstrict. unfold binary_round_aux.
  pose proof (shr_fexp_spec m e l Hm) as H1.
  destruct (shift_upper m e mb eb Hm Hmb ltac:(lia) He Hle) as (Hn0 & Hn & Hm1).
  set (n := shift_amount m e) in *.
  assert (H2n : 0 < 2 ^ n) by (by apply pow2_pos).
  assert (HB1 : 0 <= mb * 2 ^ (eb - (e + n))).
  { pose proof (pow2_pos (eb - (e + n)) ltac:(lia)). nia. }
  assert (HB : mb * 2 ^ (eb - e) = mb * 2 ^ (eb - (e + n)) * 2 ^ n).
  { rewrite (pow2_split (eb - e) n) by lia.
    replace (eb - e - n) with (eb - (e + n)) by lia. ring. }
  assert (Hround :
    round_nearest_even
      (shr_m (fst (shr_fexp F64.prec F64.emax m e l)))
      (loc_of_shr_record (fst (shr_fexp F64.prec F64.emax m e l)))
    <= mb * 2 ^ (eb - (e + n))).
  { destruct (shr_fexp F64.prec F64.emax m e l) as [mrs1 e1] eqn:E1.
    destruct H1 as [Hm1' _]. cbn [fst].
    pose proof (round_nearest_even_bounds (shr_m mrs1)
                  (loc_of_shr_record mrs1)) as Hb.
    destruct (Z.eq_dec (shr_m mrs1) (mb * 2 ^ (eb - (e + n)))) as [Heq|Hne];
      [|lia].
    assert (HmB : m = mb * 2 ^ (eb - (e + n)) * 2 ^ n).
    { pose proof (Z.mul_div_le m (2 ^ n) H2n). rewrite <- Hm1', Heq in H. lia. }
    assert (Hl : l = loc_Exact).
    { destruct l as [|c]; [done|]. specialize (Hstrict ltac:(done)). lia. }
    subst l.
    pose proof (shr_fexp_exact m e _ HB1 HmB) as Hexact.
    rewrite E1 in Hexact. cbn [fst] in Hexact.
    rewrite Hexact. cbn [round_nearest_even]. lia. }
  destruct (shr_fexp F64.prec F64.emax m e l) as [mrs1 e1].
  destruct H1 as [Hm1' He1]. cbn [fst] in Hround.
  assert (Hs : 0 <= shr_m mrs1).
  { rewrite Hm1'. apply Z.div_pos; lia. }
  pose proof (round_nearest_even_bounds (shr_m mrs1)
                (loc_of_shr_record mrs1)) as Hb.
  set (m2 := round_nearest_even (shr_m mrs1) (loc_of_shr_record mrs1)) in *.
  fold n in He1. rewrite <- He1 in *.
  pose proof (shr_fexp_spec m2 e1 loc_Exact ltac:(lia)) as H2.
  destruct (shift_upper m2 e1 mb eb ltac:(lia) Hmb ltac:(lia) Hn Hround)
    as (Hn2 & He3 & Hm3).
  destruct (shr_fexp F64.prec F64.emax m2 e1 loc_Exact) as [mrs2 e2].
  destruct H2 as [Hm2' He2]. rewrite <- He2, <- Hm2' in *.
  destruct (shr_m mrs2) as [|m3|m3] eqn:E3.
  - by left.
  - right. replace (e2 <=? F64.emax - F64.prec) with true
      by (symmetry; apply Z.leb_le; unfold F64.emax, F64.prec; lia).
    by exists m3, e2.
  - exfalso.
    assert (0 <= m2 / 2 ^ shift_amount m2 e1)
      by (apply Z.div_pos; [lia|by apply pow2_pos]).
    lia.
Qed.

Lemma dyadic_le_mono ma ea m m' e :
  m <= m' -> dyadic_le ma ea m e -> dyadic_le ma ea m' e.
Proof.
  intros Hm [[He H]|[He H]]; [left; split; lia|right; split; [lia|]].
  pose proof (pow2_pos (e - ea) ltac:(lia)). nia.
Qed.

(** Rounding to nearest does not cross a representable lower bound. *)
Lemma round_aux_lower s m e l ma ea :
  0 <= m -> 2 ^ 52 <= ma < 2 ^ 53 -> -1074 <= ea ->
  dyadic_le ma ea m e ->
  lower_bounded (binary_round_aux F64.prec F64.emax s m e l) s ma ea.
Proof.
  intros Hm Hma Hea Hle. unfold binary_round_aux.
  pose proof (shr_fexp_spec m e l Hm) as H1.
  pose proof (shift_lower m e ma ea Hm Hma Hea Hle) as Hl1. cbv zeta in Hl1.
  destruct (shr_fexp F64.prec F64.emax m e l) as [mrs1 e1].
  destruct H1 as [Hm1 He1]. rewrite <- Hm1, <- He1 in *.
  assert (Hs : 0 <= shr_m mrs1).
  { rewrite Hm1. apply Z.div_pos; [lia|]. apply pow2_pos.
    unfold shift_amount. lia. }
  pose proof (round_nearest_even_bounds (shr_m mrs1)
                (loc_of_shr_record mrs1)) as Hb.
  set (m2 := round_nearest_even (shr_m mrs1) (loc_of_shr_record mrs1)) in *.
  assert (Hl2 : dyadic_le ma ea m2 e1)
    by (apply (dyadic_le_mono _ _ (shr_m mrs1)); [lia|done]).
  pose proof (shr_fexp_spec m2 e1 loc_Exact ltac:(lia)) as H2.
  pose proof (shift_lower m2 e1 ma ea ltac:(lia) Hma Hea Hl2) as Hl3.
  pose proof (shifted_lt_pow_prec m2 e1 ltac:(lia)) as Hlt.
  cbv zeta in Hl3. unfold F64.prec in Hlt.
  destruct (shr_fexp F64.prec F64.emax m2 e1 loc_Exact) as [mrs2 e2].
  destruct H2 as [Hm2 He2]. rewrite <- Hm2, <- He2 in *.
  assert (Hfinal : ea <= e2 /\ ma <= shr_m mrs2 * 2 ^ (e2 - ea)).
  { destruct Hl3 as [[He H]|[He H]]; [|split; [lia|done]].
    destruct (Z.eq_dec e2 ea) as [->|Hne].
    - rewrite Z.sub_diag in *. lia.
    - exfalso.
      assert (2 <= 2 ^ (ea - e2)).
      { change 2 with (2 ^ 1) at 1. apply Z.pow_le_mono_r; lia. }
      change (2 ^ 53) with (2 * 2 ^ 52) in *. nia. }
  destruct Hfinal as [He Hv].
  pose proof (pow2_pos (e2 - ea) ltac:(lia)) as Hp.
  assert (0 < 2 ^ 52) by done.
  destruct (shr_m mrs2) as [|m3|m3] eqn:E3; [exfalso; nia| |exfalso; nia].
  destruct (e2 <=? F64.emax - F64.prec); [|by left].
  right. by exists m3, e2.
Qed.

Lemma pos_iter_xO m d : Z.pos (Pos.iter xO m d) = Z.pos m * 2 ^ Z.pos d.
Proof.
  induction d as [|d IH] using Pos.peano_ind.
  - cbn [Pos.iter]. by rewrite Pos2Z.inj_xO, Z.mul_comm.
  - rewrite Pos.iter_succ, (Pos2Z.inj_xO (Pos.iter xO m d)), IH.
    rewrite Pos2Z.inj_succ, Z.pow_succ_r by lia. ring.
Qed.

Lemma shl_align_spec mx ex ex' :
  snd (shl_align mx ex ex') = Z.min ex ex' /\
  Z.pos (fst (shl_align mx ex ex'))
  = Z.pos mx * 2 ^ (ex - Z.min ex ex').
Proof.
  unfold shl_align. destruct (ex' - ex) as [|d|d] eqn:E; cbn [fst snd].
  - rewrite Z.min_l by lia. rewrite Z.sub_diag. lia.
  - rewrite Z.min_l by lia. rewrite Z.sub_diag. lia.
  - rewrite Z.min_r by lia. split; [done|].
    rewrite pos_iter_xO. f_equal. f_equal. lia.
Qed.

(** The same two bounds for a mantissa that is aligned before it is
    rounded, as after an addition or a subtraction. *)
Lemma binary_round_upper s M e mb eb :
  0 <= mb < 2 ^ 53 -> -1074 <= eb <= 971 ->
  e <= eb -> Z.pos M <= mb * 2 ^ (eb - e) ->
  upper_bounded (binary_round F64.prec F64.emax s M e) s mb eb.
Proof.
  intros Hmb Heb He Hle. unfold binary_round.
  pose proof (shl_align_spec M e
                (fexp F64.prec F64.emax (Z.pos (digits2_pos M) + e))) as Hs.
  destruct (shl_align M e _) as [mz ez]. cbn [fst snd] in Hs.
  destruct Hs as [Hez Hmz]. rewrite <- Hez in Hmz.
  set (e' := fexp F64.prec F64.emax (Z.pos (digits2_pos M) + e)) in *.
  assert (Hk : 0 <= e - ez) by lia.
  pose proof (pow2_pos (e - ez) Hk).
  pose proof (pow2_pos (eb - e) ltac:(lia)).
  apply round_aux_upper; try done; try lia.
  rewrite Hmz, (pow2_split (eb - ez) (e - ez)) by lia.
  replace (eb - ez - (e - ez)) with (eb - e) by lia. nia.
Qed.

Lemma binary_round_lower s M e ma ea :
  2 ^ 52 <= ma < 2 ^ 53 -> -1074 <= ea ->
  e <= ea -> ma * 2 ^ (ea - e) <= Z.pos M ->
  lower_bounded (binary_round F64.prec F64.emax s M e) s ma ea.
Proof.
  intros Hma Hea He Hle. unfold binary_round.
  pose proof (shl_align_spec M e
                (fexp F64.prec F64.emax (Z.pos (digits2_pos M) + e))) as Hs.
  destruct (shl_align M e _) as [mz ez]. cbn [fst snd] in Hs.
  destruct Hs as [Hez Hmz]. rewrite <- Hez in Hmz.
  set (e' := fexp F64.prec F64.emax (Z.pos (digits2_pos M) + e)) in *.
  assert (Hk : 0 <= e - ez) by lia.
  pose proof (pow2_pos (e - ez) Hk).
  pose proof (pow2_pos (ea - e) ltac:(lia)).
  apply round_aux_lower; try done.
  left. split; [lia|].
  rewrite Hmz, (pow2_split (ea - ez) (e - ez)) by lia.
  replace (ea - ez - (e - ez)) with (ea - e) by lia. nia.
Qed.

(** ** The shadow of the renderer, step by step *)

Lemma renderer_constants :
  F64.of_int 0 = S754_zero false /\
  F64.of_int 1 = S754_finite false 4503599627370496 (-52) /\
  F64.of_int 2 = S754_finite false 4503599627370496 (-51) /\
  F64.of_int 50 = S754_finite false 7036874417766400 (-47) /\
  F64.of_int 100 = S754_finite false 7036874417766400 (-46) /\
  F64.lit 4 1 = S754_finite false 7205759403792794 (-54) /\
  F64.lit 5 1 = S754_finite false 4503599627370496 (-53) /\
  F64.lit 9 1 = S754_finite false 8106479329266893 (-53).
Proof. vm_compute. repeat split. Qed.

Ltac eval_pows :=
  change (2 ^ 52) with 4503599627370496 in *;
  change (2 ^ 53) with 9007199254740992 in *.

Lemma leb_finite_r x mb eb :
  (x <=? S754_finite false mb eb)%py = true <->
  match x with
  | S754_zero _ => True
  | S754_infinity s => s = true
  | S754_nan => False
  | S754_finite true _ _ => True
  | S754_finite false m e => e < eb \/ (e = eb /\ Z.pos m <= Z.pos mb)
  end.
Proof.
  unfold F64.leb, SFleb.
  destruct x as [s|s| |s m e]; simpl; try (destruct s); simpl;
    try (split; (done || tauto || discriminate)).
  destruct (Z.compare_spec e eb) as [->|Hlt|Hgt].
  - change (Pos.compare_cont Eq m mb) with (Z.pos m ?= Z.pos mb).
    destruct (Z.compare_spec (Z.pos m) (Z.pos mb)); split; intros; try done; lia.
  - split; [lia|done].
  - split; [done|lia].
Qed.

(** [2 * i] stays at most twice a bound on [i]. *)
Lemma double_upper mi ei mb eb :
  0 <= mb < 2 ^ 53 -> -1074 <= eb <= 970 ->
  ei <= eb -> Z.pos mi <= mb * 2 ^ (eb - ei) ->
  upper_bounded
    (S754_finite false 4503599627370496 (-51) * S754_finite false mi ei)%py
    false mb (eb + 1).
Proof.
  intros Hmb Heb He Hle. unfold F64.mul, SFmul. cbn [xorb].
  pose proof (pow2_pos (eb - ei) ltac:(lia)).
  apply round_aux_upper; try done; try lia.
  replace (eb + 1 - (-51 + ei)) with ((eb - ei) + 52) by lia.
  rewrite pow2_add by lia. eval_pows.
  rewrite Pos2Z.inj_mul. nia.
Qed.

(** [t / 100] is at most [2^j] when [t] is at most [100 * 2^j]. *)
Lemma div_100_upper mt et j :
  0 <= j <= 1 ->
  et <= -46 + j -> Z.pos mt <= 7036874417766400 * 2 ^ (-46 + j - et) ->
  upper_bounded
    (S754_finite false mt et / S754_finite false 7036874417766400 (-46))%py
    false 4503599627370496 (-52 + j).
Proof.
  intros Hj He Hle. unfold F64.div, SFdiv, SFdiv_core_binary.
  change (Zdigits2 (Z.pos 7036874417766400)) with 53. cbn [xorb].
  set (d1 := Zdigits2 (Z.pos mt)).
  set (e' := Z.min (fexp F64.prec F64.emax (d1 + et - (53 + -46))) (et - -46)).
  assert (Hp : 0 < 2 ^ (-46 + j - et)) by (apply pow2_pos; lia).
  assert (Hd1 : d1 <= 53 + (-46 + j - et)).
  { apply Zdigits2_le_of_lt_pow; [lia|]. split; [lia|].
    rewrite pow2_add by lia. eval_pows. nia. }
  assert (He' : e' <= -52 + j /\ e' <= et + 46).
  { unfold e', fexp, emin, F64.prec, F64.emax. lia. }
  set (s := et - -46 - e').
  assert (Hs : 0 <= s) by (unfold s; lia).
  assert (Hm : match s with
               | 0 => Z.pos mt
               | Z.pos _ => Z.shiftl (Z.pos mt) s
               | Z.neg _ => 0
               end = Z.pos mt * 2 ^ s).
  { destruct s as [|p|p]; try lia.
    rewrite Z.shiftl_mul_pow2 by lia. reflexivity. }
  rewrite Hm.
  pose proof (Z_div_mod (Z.pos mt * 2 ^ s) 7036874417766400 ltac:(lia))
    as Hdm.
  destruct (Z.div_eucl (Z.pos mt * 2 ^ s) 7036874417766400) as [q r].
  destruct Hdm as [Hq Hr].
  assert (H2s : 0 < 2 ^ s) by (by apply pow2_pos).
  set (P := 2 ^ (-52 + j - e')).
  assert (HP : 0 < P) by (apply pow2_pos; lia).
  (* the dividend is at most the divisor times the bound *)
  assert (Hbound : Z.pos mt * 2 ^ s <= 7036874417766400 * (4503599627370496 * P)).
  { assert (E : 4503599627370496 * P * 1 = 2 ^ (-46 + j - et) * 2 ^ s).
    { unfold P. change 4503599627370496 with (2 ^ 52).
      rewrite <- !pow2_add by lia. rewrite Z.mul_1_r. f_equal. unfold s. lia. }
    nia. }
  apply round_aux_upper; try done; try lia.
  fold P. intros Hl.
  assert (r <> 0).
  { intros ->. apply Hl. reflexivity. }
  lia.
Qed.

(** [t / 100] is at least one when [t] is between 100 and 200. *)
Lemma div_100_lower mt et :
  -46 <= et <= -45 ->
  7036874417766400 <= Z.pos mt * 2 ^ (et + 46) ->
  Z.pos mt <= 7036874417766400 * 2 ^ (-45 - et) ->
  lower_bounded
    (S754_finite false mt et / S754_finite false 7036874417766400 (-46))%py
    false 4503599627370496 (-52).
Proof.
  intros He Hlo Hhi. unfold F64.div, SFdiv, SFdiv_core_binary.
  change (Zdigits2 (Z.pos 7036874417766400)) with 53. cbn [xorb].
  set (d1 := Zdigits2 (Z.pos mt)).
  set (e' := Z.min (fexp F64.prec F64.emax (d1 + et - (53 + -46))) (et - -46)).
  assert (Hp : 0 < 2 ^ (-45 - et)) by (apply pow2_pos; lia).
  assert (Hd1 : d1 <= 53 + (-45 - et)).
  { apply Zdigits2_le_of_lt_pow; [lia|]. split; [lia|].
    rewrite pow2_add by lia. eval_pows. nia. }
  assert (He' : e' <= -52 /\ e' <= et + 46).
  { unfold e', fexp, emin, F64.prec, F64.emax. lia. }
  set (s := et - -46 - e').
  assert (Hs : 0 <= s) by (unfold s; lia).
  assert (Hm : match s with
               | 0 => Z.pos mt
               | Z.pos _ => Z.shiftl (Z.pos mt) s
               | Z.neg _ => 0
               end = Z.pos mt * 2 ^ s).
  { destruct s as [|p|p]; try lia.
    rewrite Z.shiftl_mul_pow2 by lia. reflexivity. }
  rewrite Hm.
  pose proof (Z_div_mod (Z.pos mt * 2 ^ s) 7036874417766400 ltac:(lia))
    as Hdm.
  destruct (Z.div_eucl (Z.pos mt * 2 ^ s) 7036874417766400) as [q r].
  destruct Hdm as [Hq Hr].
  set (P := 2 ^ (-52 - e')).
  assert (HP : 0 < P) by (apply pow2_pos; lia).
  assert (Hbound : 7036874417766400 * (4503599627370496 * P) <= Z.pos mt * 2 ^ s).
  { assert (E : 2 ^ s = 2 ^ (et + 46) * (4503599627370496 * P)).
    { unfold P. change 4503599627370496 with (2 ^ 52).
      rewrite <- !pow2_add by lia. f_equal. unfold s. lia. }
    rewrite E. nia. }
  apply round_aux_lower; try done; try lia.
  left. split; [lia|]. fold P. lia.
Qed.

(** [1 - q] is between zero and one when [q] is. *)
Lemma one_minus_upper q :
  upper_bounded q false 4503599627370496 (-52) ->
  upper_bounded (S754_finite false 4503599627370496 (-52) - q)%py
    false 4503599627370496 (-52).
Proof.
  intros [->|(mq & eq & -> & He & Hle)].
  - right. exists 4503599627370496%positive, (-52). repeat split; lia.
  - unfold F64.sub, SFsub. cbn [cond_Zopp].
    set (ez := Z.min (-52) eq).
    assert (Hez : ez = eq) by (unfold ez; lia).
    destruct (shl_align_spec 4503599627370496 (-52) ez) as [_ H1].
    destruct (shl_align_spec mq eq ez) as [_ H2].
    rewrite Z.min_r in H1 by lia. rewrite Z.min_r in H2 by lia.
    rewrite H1, H2. rewrite Hez in *. clear H1 H2.
    rewrite Z.sub_diag, Z.mul_1_r.
    pose proof (pow2_pos (-52 - eq) ltac:(lia)).
    destruct (Z.pos 4503599627370496 * 2 ^ (-52 - eq) - Z.pos mq)
      as [|M|M] eqn:EM; cbn [binary_normalize].
    + by left.
    + apply binary_round_upper; try done; lia.
    + exfalso. lia.
Qed.

(** [1 - q] is between minus one and zero when [q] is between one and
    two. *)
Lemma one_minus_lower mq eq :
  -52 <= eq <= -51 ->
  4503599627370496 <= Z.pos mq * 2 ^ (eq + 52) ->
  Z.pos mq <= 4503599627370496 * 2 ^ (-51 - eq) ->
  let d := (S754_finite false 4503599627370496 (-52)
            - S754_finite false mq eq)%py in
  d = S754_zero false \/ upper_bounded d true 4503599627370496 (-52).
Proof.
  intros He Hlo Hhi d. unfold d, F64.sub, SFsub. cbn [cond_Zopp].
  set (ez := Z.min (-52) eq).
  assert (Hez : ez = -52) by (unfold ez; lia).
  destruct (shl_align_spec 4503599627370496 (-52) ez) as [_ H1].
  destruct (shl_align_spec mq eq ez) as [_ H2].
  rewrite Z.min_l in H1 by lia. rewrite Z.min_r in H2 by lia.
  rewrite H1, H2. rewrite Hez in *. clear H1 H2.
  rewrite Z.sub_diag, Z.mul_1_r.
  replace (eq - -52) with (eq + 52) by lia.
  assert (Hq2 : Z.pos mq * 2 ^ (eq + 52) <= 2 * 4503599627370496).
  { assert (Hc : eq = -52 \/ eq = -51) by lia.
    destruct Hc as [-> | ->]; simpl in *; lia. }
  destruct (Z.pos 4503599627370496 - Z.pos mq * 2 ^ (eq + 52))
    as [|M|M] eqn:EM; cbn [binary_normalize].
  - by left.
  - exfalso. lia.
  - right. apply binary_round_upper; try done; lia.
Qed.

(** [d * 0.4] keeps the sign of [d] and is at most [0.4] in magnitude
    when [d] is at most one. *)
Lemma times_04_upper d s :
  upper_bounded d s 4503599627370496 (-52) ->
  upper_bounded (d * S754_finite false 7205759403792794 (-54))%py
    s 7205759403792794 (-54).
Proof.
  intros [->|(md & ed & -> & He & Hle)].
  - left. unfold F64.mul, SFmul. by destruct s.
  - unfold F64.mul, SFmul.
    replace (xorb s false) with s by (by destruct s).
    pose proof (pow2_pos (-52 - ed) ltac:(lia)).
    apply round_aux_upper; try done; try lia.
    replace (-54 - (ed + -54)) with (52 + (-52 - ed)) by lia.
    rewrite pow2_add by lia. eval_pows.
    rewrite Pos2Z.inj_mul. nia.
Qed.

(** One half plus a magnitude of at most [0.4] is between [0.5] and
    [0.9]. *)
Lemma half_plus mo eo :
  eo <= -54 -> Z.pos mo <= 7205759403792794 * 2 ^ (-54 - eo) ->
  let ez := Z.min (-53) eo in
  let r := binary_normalize F64.prec F64.emax
             (Z.pos (fst (shl_align 4503599627370496 (-53) ez)) +
              Z.pos (fst (shl_align mo eo ez))) ez false in
  lower_bounded r false 4503599627370496 (-53) /\
  upper_bounded r false 8106479329266893 (-53).
Proof.
  intros He Hle ez r. unfold r.
  assert (Hez : ez = eo) by (unfold ez; lia).
  destruct (shl_align_spec 4503599627370496 (-53) ez) as [_ H1].
  destruct (shl_align_spec mo eo ez) as [_ H2].
  rewrite Z.min_r in H1 by lia. rewrite Z.min_r in H2 by lia.
  rewrite H1, H2. rewrite Hez in *. clear H1 H2 r.
  rewrite Z.sub_diag, Z.mul_1_r.
  replace (-53 - eo) with (1 + (-54 - eo)) by lia.
  rewrite pow2_add by lia. change (2 ^ 1) with 2.
  pose proof (pow2_pos (-54 - eo) ltac:(lia)) as Hp.
  set (P := 2 ^ (-54 - eo)) in *.
  destruct (Z.pos 4503599627370496 * (2 * P) + Z.pos mo)
    as [|M|M] eqn:EM; cbn [binary_normalize]; [exfalso; lia| |exfalso; lia].
  split.
  - apply binary_round_lower; try done; try lia.
    replace (-53 - eo) with (1 + (-54 - eo)) by lia.
    rewrite pow2_add by lia. change (2 ^ 1) with 2. fold P. lia.
  - apply binary_round_upper; try done; try lia.
    replace (-53 - eo) with (1 + (-54 - eo)) by lia.
    rewrite pow2_add by lia. change (2 ^ 1) with 2. fold P. lia.
Qed.

Lemma half_range r :
  lower_bounded r false 4503599627370496 (-53) ->
  upper_bounded r false 8106479329266893 (-53) ->
  (S754_finite false 4503599627370496 (-53) <=? r)%py = true /\
  (r <=? S754_finite false 8106479329266893 (-53))%py = true.
Proof.
  intros [->|(m & e & -> & He & Hlo)] [Hz|(m' & e' & Heq & He' & Hhi)];
    try discriminate.
  injection Heq as <- <-.
  assert (e = -53) as -> by lia. simpl in Hlo, Hhi.
  split.
  - apply leb_finite_at_least. simpl. lia.
  - apply leb_finite_r. lia.
Qed.

(** The last step of the renderer: [0.5 + o] for an offset that is zero
    or positive, [0.5 - o] for one that is zero or negative. *)
Lemma half_plus_offset o s :
  upper_bounded o s 7205759403792794 (-54) ->
  let half := S754_finite false 4503599627370496 (-53) in
  let r := if s then (half - o)%py else (half + o)%py in
  (half <=? r)%py = true /\
  (r <=? S754_finite false 8106479329266893 (-53))%py = true.
Proof.
  intros [->|(mo & eo & -> & He & Hle)] half r.
  - assert (r = half) as -> by (unfold r; by destruct s).
    by vm_compute.
  - apply half_range.
    + destruct s; unfold r, half, F64.sub, F64.add, SFsub, SFadd;
        cbn [cond_Zopp]; rewrite ?Z.sub_opp_r;
        by apply half_plus.
    + destruct s; unfold r, half, F64.sub, F64.add, SFsub, SFadd;
        cbn [cond_Zopp]; rewrite ?Z.sub_opp_r;
        by apply half_plus.
Qed.

(** [2 * i] is at least 100 when [i] is between 50 and 100. *)
Lemma double_lower mi ei :
  -47 <= ei <= -46 -> 7036874417766400 <= Z.pos mi * 2 ^ (ei + 47) ->
  lower_bounded
    (S754_finite false 4503599627370496 (-51) * S754_finite false mi ei)%py
    false 7036874417766400 (-46).
Proof.
  intros He Hlo. unfold F64.mul, SFmul. cbn [xorb].
  apply round_aux_lower; try done; try lia.
  left. split; [lia|]. rewrite Pos2Z.inj_mul.
  assert (Hc : ei = -47 \/ ei = -46) by lia.
  destruct Hc as [-> | ->]; simpl in *; lia.
Qed.

Lemma bounded_both x s ma ea mb eb :
  lower_bounded x s ma ea -> upper_bounded x s mb eb ->
  exists m e,
    x = S754_finite s m e /\ ea <= e <= eb /\
    ma <= Z.pos m * 2 ^ (e - ea) /\ Z.pos m <= mb * 2 ^ (eb - e).
Proof.
  intros [->|(m & e & -> & He & Hlo)] [Hz|(m' & e' & Heq & He' & Hhi)];
    try discriminate.
  injection Heq as <- <-. exists m, e. repeat split; lia.
Qed.

Lemma valid_mantissa_lt s m e :
  F64.valid (S754_finite s m e) -> Z.pos m < 2 ^ 53.
Proof.
  intros (_ & Hd & _)%valid_finite_cases.
  pose proof (Zdigits2_upper (Z.pos m) ltac:(lia)) as Hu.
  eapply Z.lt_le_trans; [exact Hu|].
  apply Z.pow_le_mono_r; lia.
Qed.

Lemma valid_normal_mantissa s m e :
  F64.valid (S754_finite s m e) -> e <> -1074 -> 2 ^ 52 <= Z.pos m.
Proof.
  intros (_ & _ & Hd)%valid_finite_cases He.
  pose proof (Zdigits2_lower (Z.pos m) ltac:(lia)) as Hl.
  rewrite (Hd He) in Hl. exact Hl.
Qed.

(** The shadow of an illumination of at most 50. *)
Lemma shadow_waxing m e :
  e <= -47 -> Z.pos m <= 7036874417766400 * 2 ^ (-47 - e) ->
  let half := S754_finite false 4503599627370496 (-53) in
  let r := (half
            + (S754_finite false 4503599627370496 (-52)
               - S754_finite false 4503599627370496 (-51)
                 * S754_finite false m e
                 / S754_finite false 7036874417766400 (-46))
              * S754_finite false 7205759403792794 (-54))%py in
  (half <=? r)%py = true /\
  (r <=? S754_finite false 8106479329266893 (-53))%py = true.
Proof.
  intros He Hle half r.
  assert (Ht : upper_bounded
                 (S754_finite false 4503599627370496 (-51)
                  * S754_finite false m e)%py false 7036874417766400 (-46)).
  { apply (double_upper m e 7036874417766400 (-47)); try done; lia. }
  assert (Hq : upper_bounded
                 (S754_finite false 4503599627370496 (-51)
                  * S754_finite false m e
                  / S754_finite false 7036874417766400 (-46))%py
                 false 4503599627370496 (-52)).
  { destruct Ht as [->|(mt & et & -> & Het & Hmt)]; [by left|].
    by apply (div_100_upper mt et 0). }
  apply one_minus_upper in Hq.
  apply (times_04_upper _ false) in Hq.
  exact (half_plus_offset _ false Hq).
Qed.

(** The shadow of an illumination above 50 and at most 100. *)
Lemma shadow_waning m e :
  -47 <= e <= -46 ->
  7036874417766400 <= Z.pos m * 2 ^ (e + 47) ->
  Z.pos m <= 7036874417766400 * 2 ^ (-46 - e) ->
  let half := S754_finite false 4503599627370496 (-53) in
  let r := (half
            - (S754_finite false 4503599627370496 (-52)
               - S754_finite false 4503599627370496 (-51)
                 * S754_finite false m e
                 / S754_finite false 7036874417766400 (-46))
              * S754_finite false 7205759403792794 (-54))%py in
  (half <=? r)%py = true /\
  (r <=? S754_finite false 8106479329266893 (-53))%py = true.
Proof.
  intros He Hlo Hhi half r.
  assert (Ht : exists mt et,
             (S754_finite false 4503599627370496 (-51)
              * S754_finite false m e)%py = S754_finite false mt et /\
             -46 <= et <= -45 /\
             7036874417766400 <= Z.pos mt * 2 ^ (et - -46) /\
             Z.pos mt <= 7036874417766400 * 2 ^ (-45 - et)).
  { apply bounded_both; [by apply double_lower|].
    apply (double_upper m e 7036874417766400 (-46)); try done; lia. }
  destruct Ht as (mt & et & Et & Het & Hlt & Hht).
  assert (Hq : exists mq eq,
             (S754_finite false mt et
              / S754_finite false 7036874417766400 (-46))%py
             = S754_finite false mq eq /\
             -52 <= eq <= -51 /\
             4503599627370496 <= Z.pos mq * 2 ^ (eq - -52) /\
             Z.pos mq <= 4503599627370496 * 2 ^ (-51 - eq)).
  { apply bounded_both.
    - by apply div_100_lower.
    - apply (div_100_upper mt et 1); [lia|lia|exact Hht]. }
  destruct Hq as (mq & eq & Eq & Heq & Hlq & Hhq).
  unfold r. rewrite Et, Eq.
  destruct (one_minus_lower mq eq Heq) as [Hd|Hd]; try done.
  - rewrite Hd. by vm_compute.
  - apply (times_04_upper _ true) in Hd.
    exact (half_plus_offset _ true Hd).
Qed.

(** X15. The shadow is never drawn left of the disk: for every
    illumination between 0 and 100 the centre of the shadow circle lies
    between [0.5], the centre of the lit disk, and [0.9], its right edge,
    on the branch for at most 50 as on the branch for more than 50; so no
    circle of the figure is centred left of [0.5]. *)
Theorem shadow_center_range (illumination : F64.float) :
  F64.valid illumination ->
  (F64.of_int 0 <=? illumination)%py = true ->
  (illumination <=? F64.of_int 100)%py = true ->
  (F64.lit 5 1 <=? shadow_x illumination)%py = true /\
  (shadow_x illumination <=? F64.lit 9 1)%py = true /\
  Forall (fun c => (F64.lit 5 1 <=? center_x c)%py = true)
         (moon_patches illumination).
Proof.
  intros Hv H0 H100.
  assert (Hx : (F64.lit 5 1 <=? shadow_x illumination)%py = true /\
               (shadow_x illumination <=? F64.lit 9 1)%py = true).
  { unfold shadow_x, shadow_offset. cbv zeta.
    destruct renderer_constants as (C0 & C1 & C2 & C50 & C100 & C4 & C5 & C9).
    rewrite C0 in H0. rewrite C100 in H100.
    rewrite C1, C2, C50, C100, C4, C5, C9.
    clear C0 C1 C2 C50 C100 C4 C5 C9.
    destruct illumination as [s|s| |s m e].
    - destruct s; vm_compute; split; reflexivity.
    - destruct s; [discriminate H0|discriminate H100].
    - discriminate H0.
    - destruct s; [discriminate H0|].
      pose proof (valid_mantissa_lt _ _ _ Hv) as Hlt.
      apply leb_finite_r in H100.
      destruct (S754_finite false m e
                <=? S754_finite false 7036874417766400 (-47))%py eqn:H50.
      + apply leb_finite_r in H50.
        apply shadow_waxing; [lia|].
        destruct H50 as [He|[-> Hm]]; [|simpl; lia].
        assert (2 <= 2 ^ (-47 - e)).
        { change 2 with (2 ^ 1) at 1. apply Z.pow_le_mono_r; lia. }
        eval_pows. nia.
      + assert (H50' : ~ (e < -47 \/ (e = -47 /\
                            Z.pos m <= Z.pos 7036874417766400))).
        { intros H.
          apply (proj2 (leb_finite_r (S754_finite false m e) _ _)) in H.
          congruence. }
        assert (He : -47 <= e <= -46) by lia.
        pose proof (valid_normal_mantissa _ _ _ Hv ltac:(lia)) as Hn.
        eval_pows.
        assert (Hc : e = -47 \/ e = -46) by lia.
        apply shadow_waning; [done| |];
          destruct Hc as [-> | ->]; simpl; lia. }
  destruct Hx as [Hlo Hhi]. split; [done|]. split; [done|].
  unfold moon_patches.
  constructor; [|constructor; [exact Hlo|constructor]].
  cbn [center_x]. vm_compute. reflexivity.
Qed.

Lemma shadow_center_range_witness :
  (F64.lit 5 1 <=? shadow_x (F64.of_int 25))%py = true /\
  (shadow_x (F64.of_int 25) <=? F64.lit 9 1)%py = true.
Proof.
  destruct (shadow_center_range (F64.of_int 25)) as (H1 & H2 & _).
  - vm_compute. reflexivity.
  - vm_compute. reflexivity.
  - vm_compute. reflexivity.
  - split; assumption.
Defined.
